(** * Verification of the compare-tool core: the diff/similarity engine
      ([src/src/lib/compare.ts], [compareValues] in [src/src/App.tsx] and
      [src/unnamed/part_001], the earlier [compareObjects] in
      [src/unnamed/part_000]) and the report normalizer
      ([src/src/lib/convert.ts]).

    Modelling conventions.
    - JavaScript numbers occurring in the documents are modelled as integers
      ([Z]); NaN and fractional numbers are outside the model.
    - Strings are [String.string] (byte strings); [toLowerCase] is ASCII
      lowercasing.
    - Plain objects are insertion-ordered association lists with unique keys.
      Own keys that look like array indices (which JavaScript enumerates
      first) and the names inherited from [Object.prototype] ([__proto__],
      [constructor], ...) are outside the model. *)

From Stdlib Require Import Bool ZArith QArith Qround List String Ascii Lia.
From Stdlib Require Import DecimalString DecimalNat DecimalZ FinFun.
Import ListNotations.
Open Scope string_scope.
Open Scope nat_scope.
Set Warnings "-register-all".


(** Decimal rendering of numbers, as template literals and
    [JSON.stringify] print them. *)
Definition show_nat (n : nat) : string :=
  NilEmpty.string_of_uint (Nat.to_uint n).

Definition show_Z (z : Z) : string :=
  NilEmpty.string_of_int (Z.to_int z).

(** Membership of a string in a JavaScript array of strings
    ([Array.prototype.includes]). *)
Definition includes (x : string) (l : list string) : bool :=
  existsb (String.eqb x) l.

Module Compare.

(** ** JSON values of the comparison engine.
    A container carries its identity ([id]): the visited sets of
    [compareObjects] are keyed by object identity, and two occurrences of the
    same container (aliasing) carry the same identity. *)
Inductive json : Type :=
| JNull
| JBool (b : bool)
| JNum (n : Z)
| JStr (s : string)
| JArr (id : nat) (xs : list json)
| JObj (id : nat) (kvs : list (string * json)).

Definition keys (kvs : list (string * json)) : list string := map fst kvs.

(** [obj[key]] on a plain object: [None] is [undefined]. *)
Fixpoint lookup (kvs : list (string * json)) (key : string) : option json :=
  match kvs with
  | [] => None
  | (k, v) :: t => if String.eqb k key then Some v else lookup t key
  end.

(** Applies [f] to [obj[key]] when the key is present. *)
Fixpoint find_then {A} (f : json -> A) (dflt : A) (key : string)
    (kvs : list (string * json)) : A :=
  match kvs with
  | [] => dflt
  | (k, v) :: t => if String.eqb k key then f v else find_then f dflt key t
  end.

(** [Array.from(new Set(l))]: first occurrences, in order. *)
Fixpoint dedup_acc (seen : list string) (l : list string) : list string :=
  match l with
  | [] => []
  | x :: t => if includes x seen then dedup_acc seen t
              else x :: dedup_acc (x :: seen) t
  end.

Definition dedup (l : list string) : list string := dedup_acc [] l.

(** lodash [_.isEqual] on JSON values: structural, objects compared by their
    own key sets, identities ignored. *)
Fixpoint isEqual (a b : json) : bool :=
  match a, b with
  | JNull, JNull => true
  | JBool x, JBool y => Bool.eqb x y
  | JNum x, JNum y => Z.eqb x y
  | JStr x, JStr y => String.eqb x y
  | JArr _ xs, JArr _ ys =>
      (fix go (xs ys : list json) : bool :=
         match xs, ys with
         | [], [] => true
         | x :: xs', y :: ys' => isEqual x y && go xs' ys'
         | _, _ => false
         end) xs ys
  | JObj _ ka, JObj _ kb =>
      Nat.eqb (List.length ka) (List.length kb) &&
      forallb (fun kv => match lookup kb (fst kv) with
                         | Some w => isEqual (snd kv) w
                         | None => false
                         end) ka
  | _, _ => false
  end.

(** [_.isEqual] on [JsonValue | undefined]. *)
Definition isEqualU (a b : option json) : bool :=
  match a, b with
  | None, None => true
  | Some a, Some b => isEqual a b
  | _, _ => false
  end.

(** [type DiffStatus = 'same' | 'added' | 'removed' | 'modified'] *)
Inductive DiffStatus : Type := same | added | removed | modified.

Definition DiffStatus_eqb (a b : DiffStatus) : bool :=
  match a, b with
  | same, same | added, added | removed, removed | modified, modified => true
  | _, _ => false
  end.

(** [IGNORED_PROPERTIES] of [src/unnamed/part_001], line 15. *)
Definition IGNORED_PROPERTIES : list string :=
  ["id"; "source_entity"; "target_entity"; "dropped_columns"; "entity_value"].

Definition property_path (currentPath key : string) : string :=
  if String.eqb currentPath "" then key else currentPath ++ "." ++ key.

(** ** [compareValues] of [src/unnamed/part_001] (lines 98-148).
    [compareValues_present left right p] is the function once its first test
    ([left === undefined]) has failed. *)
Fixpoint compareValues_present (left : json) (right : option json)
    (currentPath : string) {struct left} : DiffStatus :=
  match right with
  | None => removed
  | Some r =>
    match left, r with
    | JObj _ leftObj, JObj _ rightObj =>
        let allKeys := dedup (keys leftObj ++ keys rightObj) in
        (fix loop (ks : list string) : DiffStatus :=
           match ks with
           | [] => same
           | key :: ks' =>
               if includes key IGNORED_PROPERTIES then loop ks' else
               let propertyPath := property_path currentPath key in
               (* compareValues(leftObj[key], rightObj[key], propertyPath) *)
               let status :=
                 (fix look (kvs : list (string * json)) : DiffStatus :=
                    match kvs with
                    | [] => added
                    | (k, v) :: t =>
                        if String.eqb k key
                        then compareValues_present v (lookup rightObj key)
                               propertyPath
                        else look t
                    end) leftObj in
               if DiffStatus_eqb status same then loop ks' else modified
           end) allKeys
    | JArr _ ls, JArr _ rs =>
        if negb (Nat.eqb (List.length ls) (List.length rs)) then modified else
        (fix loop (xs ys : list json) (i : nat) : DiffStatus :=
           match xs, ys with
           | x :: xs', y :: ys' =>
               let status := compareValues_present x (Some y)
                               (currentPath ++ "[" ++ show_nat i ++ "]") in
               if DiffStatus_eqb status same then loop xs' ys' (S i)
               else modified
           | _, _ => same
           end) ls rs 0
    | _, _ => if isEqual left r then same else modified
    end
  end.

Definition compareValues_v1 (left right : option json) (currentPath : string)
    : DiffStatus :=
  match left with
  | None => added
  | Some l => compareValues_present l right currentPath
  end.

(** [typeof] of a JSON value. *)
Definition typeof (v : json) : string :=
  match v with
  | JNull | JArr _ _ | JObj _ _ => "object"
  | JBool _ => "boolean"
  | JNum _ => "number"
  | JStr _ => "string"
  end.

Definition isArray (v : json) : bool :=
  match v with JArr _ _ => true | _ => false end.

(** ** [compareValues] of [src/src/App.tsx] (lines 93-100). *)
Definition compareValues_v2 (left right : option json) : DiffStatus :=
  if isEqualU left right then same else
  match left with
  | None => added
  | Some l =>
    match right with
    | None => removed
    | Some r =>
        if negb (String.eqb (typeof l) (typeof r)) then modified else
        if negb (Bool.eqb (isArray l) (isArray r)) then modified else
        modified
    end
  end.

(** ** [compareObjects] of [src/src/lib/compare.ts]. *)

(** A visited set ([Set<JsonValue>] holding containers only) as the list
    of the identities it holds. *)
Definition visited := list nat.

Definition has (counted : visited) (id : nat) : bool :=
  existsb (Nat.eqb id) counted.

(** [value1 === value2] on primitives. *)
Definition strict_eq (a b : json) : bool :=
  match a, b with
  | JNull, JNull => true
  | JBool x, JBool y => Bool.eqb x y
  | JNum x, JNum y => Z.eqb x y
  | JStr x, JStr y => String.eqb x y
  | _, _ => false
  end.

Definition isContainer (v : json) : bool :=
  match v with JArr _ _ | JObj _ _ => true | _ => false end.

Section CompareObjects.

Variable ignoredProperties : list string.

Definition getComparableProps (obj : list (string * json)) : list string :=
  filter (fun key => negb (includes key ignoredProperties)) (keys obj).

(** [countProperties(value, counted)], threading the visited set. *)
Fixpoint countProperties (value : json) (counted : visited)
    : nat * visited :=
  match value with
  | JArr id items =>
      if has counted id then (0, counted) else
      fold_left (fun acc item =>
                   let '(sum, c) := acc in
                   let '(n, c') := countProperties item c in (sum + n, c'))
                items (0, id :: counted)
  | JObj id obj =>
      if has counted id then (0, counted) else
      fold_left (fun acc prop =>
                   let '(sum, c) := acc in
                   (* sum + countProperties(value[prop], counted) *)
                   let '(n, c') := find_then (fun v => countProperties v c)
                                     (1, c) prop obj in
                   (sum + n, c'))
                (getComparableProps obj) (0, id :: counted)
  | _ => (1, counted)
  end.

(** [prop in value2] *)
Definition has_key (obj : list (string * json)) (prop : string) : bool :=
  includes prop (keys obj).

(** The array loop of [countMatches]:
    [for (let i = 0; i < value1.length; i++) if (i < value2.length) ...],
    over [xs], the elements of [value1] from index [i] on. *)
Fixpoint array_matches (countMatches : json -> json -> visited -> nat * visited)
    (ys : list json) (xs : list json) (i : nat) (acc : nat * visited)
    : nat * visited :=
  match xs with
  | [] => acc
  | x :: xs' =>
      let '(matches, c) := acc in
      match nth_error ys i with
      | Some y =>                     (* i < value2.length *)
          let '(n, c') := countMatches x y c in
          array_matches countMatches ys xs' (S i) (matches + n, c')
      | None => array_matches countMatches ys xs' (S i) acc
      end
  end.

(** [countMatches(value1, value2, counted)] *)
Fixpoint countMatches (value1 value2 : json) (counted : visited)
    : nat * visited :=
  match value1, value2 with
  | JArr id xs, JArr _ ys =>
      if has counted id then (0, counted) else
      array_matches countMatches ys xs 0 (0, id :: counted)
  | JObj id obj1, JObj _ obj2 =>
      if has counted id then (0, counted) else
      fold_left (fun acc prop =>
                   let '(matches, c) := acc in
                   if negb (has_key obj2 prop) then acc else
                   let '(n, c') :=
                     find_then (fun v => match lookup obj2 prop with
                                         | Some w => countMatches v w c
                                         | None => (0, c)
                                         end) (0, c) prop obj1 in
                   (matches + n, c'))
                (getComparableProps obj1) (0, id :: counted)
  | _, _ =>
      if negb (isContainer value1) && negb (isContainer value2)
      then ((if strict_eq value1 value2 then 1 else 0), counted)
      else (0, counted)
  end.

End CompareObjects.

Record ComparisonResult : Type := {
  similarityPercentage : Q;
  matchingProperties : nat;
  totalProperties : nat
}.

(** [Math.round]: nearest integer, halves rounded up. *)
Definition math_round (q : Q) : Z := Qfloor (q + (1 # 2)).

Definition nat_to_Q (n : nat) : Q := inject_Z (Z.of_nat n).

Definition result_of (totalProps matchingProps : nat) : ComparisonResult :=
  let similarityPercentage :=
    if Nat.eqb totalProps 0 then 100%Q
    else (nat_to_Q matchingProps / nat_to_Q totalProps * 100)%Q in
  {| similarityPercentage :=
       (inject_Z (math_round (similarityPercentage * 100)) / 100)%Q;
     matchingProperties := matchingProps;
     totalProperties := totalProps |}.

(** Latest revision: total taken from [obj1] only. *)
Definition compareObjects (obj1 obj2 : json) (ignoredProperties : list string)
    : ComparisonResult :=
  let totalProps := fst (countProperties ignoredProperties obj1 []) in
  let matchingProps := fst (countMatches ignoredProperties obj1 obj2 []) in
  result_of totalProps matchingProps.

(** ** [compareObjects] of [src/unnamed/part_000]. Its [countProperties] is
    the same code as the latest revision's; [countMatches] differs in
    iterating up to the longer length and testing [props2.includes(prop)]. *)
Section CompareObjectsV0.

Variable ignoredProperties : list string.

Fixpoint countMatches_v0 (value1 value2 : json) (counted : visited)
    : nat * visited :=
  match value1, value2 with
  | JArr id xs, JArr _ ys =>
      if has counted id then (0, counted) else
      let maxLength := Nat.max (List.length xs) (List.length ys) in
      (fix loop (xs : list json) (i : nat) (acc : nat * visited) :=
         match xs with
         | [] => acc          (* i >= value1.length: no further matches *)
         | x :: xs' =>
             let '(matches, c) := acc in
             if Nat.ltb i maxLength then
               match nth_error ys i with
               | Some y =>
                   let '(n, c') := countMatches_v0 x y c in
                   loop xs' (S i) (matches + n, c')
               | None => loop xs' (S i) acc
               end
             else acc
         end) xs 0 (0, id :: counted)
  | JObj id obj1, JObj _ obj2 =>
      if has counted id then (0, counted) else
      let props2 := getComparableProps ignoredProperties obj2 in
      fold_left (fun acc prop =>
                   let '(matches, c) := acc in
                   if negb (includes prop props2) then acc else
                   let '(n, c') :=
                     find_then (fun v => match lookup obj2 prop with
                                         | Some w => countMatches_v0 v w c
                                         | None => (0, c)
                                         end) (0, c) prop obj1 in
                   (matches + n, c'))
                (getComparableProps ignoredProperties obj1) (0, id :: counted)
  | _, _ =>
      if negb (isContainer value1) && negb (isContainer value2)
      then ((if strict_eq value1 value2 then 1 else 0), counted)
      else (0, counted)
  end.

End CompareObjectsV0.

Definition compareObjects_v0 (obj1 obj2 : json)
    (ignoredProperties : list string) : ComparisonResult :=
  let totalProps := Nat.max (fst (countProperties ignoredProperties obj1 []))
                            (fst (countProperties ignoredProperties obj2 [])) in
  let matchingProps := fst (countMatches_v0 ignoredProperties obj1 obj2 []) in
  result_of totalProps matchingProps.

(** ** [togglePath] of [src/src/App.tsx] (lines 83-91), the same in
    [src/unnamed/part_001]: the [Set] of expanded paths as the list of its
    members in insertion order. *)
Definition togglePath (expandedPaths : list string) (path : string) : list string :=
  let newExpanded := expandedPaths in
  if includes path newExpanded
  then filter (fun y => negb (String.eqb y path)) newExpanded
  else (newExpanded ++ [path])%list.

End Compare.

Module Convert.

(** ** JavaScript values handled by [src/src/lib/convert.ts].
    The report is an arbitrary parsed JSON document, so the normalizer is
    modelled over JavaScript values with [undefined]; an array carries, besides
    its elements, the named properties assigned to it ([key_info]). Values are
    trees, as [JSON.parse] builds them; an in-place mutation of an object is
    modelled by storing the mutated object back where it was read from
    ([put_entry]), and the one alias the code creates
    ([report.graph = report.report.report_result.graph]) is written back at
    both places. *)
Inductive val : Type :=
| VUndef
| VNull
| VBool (b : bool)
| VNum (n : Z)
| VStr (s : string)
| VArr (xs : list val) (props : list (string * val))
| VObj (kvs : list (string * val)).

(** Either a value or a thrown [TypeError]. *)
Inductive res (A : Type) : Type :=
| Ok (a : A)
| Throw (msg : string).
Arguments Ok {A} a.
Arguments Throw {A} msg.

Definition bind {A B} (m : res A) (k : A -> res B) : res B :=
  match m with Ok a => k a | Throw e => Throw e end.

Notation "'let!' x ':=' m 'in' k" := (bind m (fun x => k))
  (at level 200, x pattern, m at level 100, k at level 200).

Fixpoint fold_res {A B} (f : A -> B -> res A) (l : list B) (a : A) : res A :=
  match l with
  | [] => Ok a
  | x :: t => let! a' := f a x in fold_res f t a'
  end.

Fixpoint lookup_v (kvs : list (string * val)) (k : string) : option val :=
  match kvs with
  | [] => None
  | (k', v) :: t => if String.eqb k' k then Some v else lookup_v t k
  end.

(** [obj[k] = v] on an own-property list: in place when [k] is a key,
    appended otherwise. *)
Fixpoint js_set (kvs : list (string * val)) (k : string) (v : val)
    : list (string * val) :=
  match kvs with
  | [] => [(k, v)]
  | (k', w) :: t => if String.eqb k' k then (k', v) :: t
                    else (k', w) :: js_set t k v
  end.

Definition truthy (v : val) : bool :=
  match v with
  | VUndef | VNull => false
  | VBool b => b
  | VNum n => negb (Z.eqb n 0)
  | VStr s => negb (String.eqb s "")
  | VArr _ _ | VObj _ => true
  end.

(** [v.k] (the property names the code reads are never [length] nor array
    indices).  Reading a property of [null] or [undefined] throws. *)
Definition get (v : val) (k : string) : res val :=
  match v with
  | VUndef | VNull => Throw "TypeError: Cannot read properties"
  | VObj kvs => Ok (match lookup_v kvs k with Some x => x | None => VUndef end)
  | VArr _ props =>
      Ok (match lookup_v props k with Some x => x | None => VUndef end)
  | _ => Ok VUndef
  end.

(** [v?.k] *)
Definition get_opt (v : val) (k : string) : val :=
  match get v k with Ok x => x | Throw _ => VUndef end.

(** [v.k = x] in strict mode (an ES module): throws on primitives. *)
Definition set (v : val) (k : string) (x : val) : res val :=
  match v with
  | VObj kvs => Ok (VObj (js_set kvs k x))
  | VArr xs props => Ok (VArr xs (js_set props k x))
  | _ => Throw "TypeError: Cannot create property"
  end.

(** Element [i] of a list replaced. *)
Fixpoint replace_nth (xs : list val) (i : nat) (x : val) : list val :=
  match xs, i with
  | [], _ => []
  | _ :: t, O => x :: t
  | y :: t, S i' => y :: replace_nth t i' x
  end.

Fixpoint index_of_key (k : string) (i : nat) (xs : list val) : option nat :=
  match xs with
  | [] => None
  | _ :: t => if String.eqb (show_nat i) k then Some i
              else index_of_key k (S i) t
  end.

(** The object found at key [k] of [container] was mutated in place into
    [x]: the container now holds [x] there.  Nothing happens when [k] is not
    a key of an object or array container. *)
Definition put_entry (container : val) (k : string) (x : val) : val :=
  match container with
  | VObj kvs =>
      match lookup_v kvs k with
      | Some _ => VObj (js_set kvs k x)
      | None => container
      end
  | VArr xs props =>
      match index_of_key k 0 xs with
      | Some i => VArr (replace_nth xs i x) props
      | None =>
          match lookup_v props k with
          | Some _ => VArr xs (js_set props k x)
          | None => container
          end
      end
  | _ => container
  end.

Definition char_str (c : ascii) : string := String c EmptyString.

Fixpoint chars (s : string) : list string :=
  match s with
  | EmptyString => []
  | String c t => char_str c :: chars t
  end.

(** [for (const x of v)]: arrays and strings are iterable, nothing else. *)
Definition iter (v : val) : res (list val) :=
  match v with
  | VArr xs _ => Ok xs
  | VStr s => Ok (map VStr (chars s))
  | _ => Throw "TypeError: is not iterable"
  end.

Fixpoint indexed {A} (i : nat) (xs : list A) : list (string * A) :=
  match xs with
  | [] => []
  | x :: t => (show_nat i, x) :: indexed (S i) t
  end.

(** [Object.entries(v)] *)
Definition entries (v : val) : res (list (string * val)) :=
  match v with
  | VUndef | VNull => Throw "TypeError: Cannot convert undefined or null to object"
  | VObj kvs => Ok kvs
  | VArr xs props => Ok (indexed 0 xs ++ props)%list
  | VStr s => Ok (indexed 0 (map VStr (chars s)))
  | _ => Ok []
  end.

(** [String(v)], as template literals and property keys convert values. *)
Fixpoint to_str (v : val) : string :=
  match v with
  | VUndef => "undefined"
  | VNull => "null"
  | VBool b => if b then "true" else "false"
  | VNum n => show_Z n
  | VStr s => s
  | VArr xs _ =>
      String.concat "," (map (fun x => match x with
                                       | VUndef | VNull => ""
                                       | _ => to_str x
                                       end) xs)
  | VObj _ => "[object Object]"
  end.

(** ** [JSON.stringify] *)
Definition dq : ascii := ascii_of_nat 34.
Definition bs : ascii := ascii_of_nat 92.

Definition hex_digit (n : nat) : ascii :=
  if Nat.ltb n 10 then ascii_of_nat (48 + n) else ascii_of_nat (87 + n).

Definition escape_char (c : ascii) : string :=
  let n := nat_of_ascii c in
  if Nat.eqb n 8 then String bs "b"
  else if Nat.eqb n 9 then String bs "t"
  else if Nat.eqb n 10 then String bs "n"
  else if Nat.eqb n 12 then String bs "f"
  else if Nat.eqb n 13 then String bs "r"
  else if Nat.eqb n 34 then String bs (char_str dq)
  else if Nat.eqb n 92 then String bs (char_str bs)
  else if Nat.ltb n 32 then
    String bs ("u00" ++ String (hex_digit (n / 16))
                              (char_str (hex_digit (n mod 16))))
  else char_str c.

Fixpoint escape (s : string) : string :=
  match s with
  | EmptyString => EmptyString
  | String c t => escape_char c ++ escape t
  end.

Definition quote (s : string) : string := String dq (escape s ++ char_str dq).

(** [None] is the [undefined] that [JSON.stringify] returns for [undefined]. *)
Fixpoint stringify (v : val) : option string :=
  match v with
  | VUndef => None
  | VNull => Some "null"
  | VBool b => Some (if b then "true" else "false")
  | VNum n => Some (show_Z n)
  | VStr s => Some (quote s)
  | VArr xs _ =>
      Some ("[" ++ String.concat ","
                     (map (fun x => match stringify x with
                                    | Some s => s
                                    | None => "null"
                                    end) xs) ++ "]")
  | VObj kvs =>
      Some ("{" ++ String.concat ","
                     (flat_map (fun kv => match stringify (snd kv) with
                                          | Some s => [quote (fst kv) ++ ":" ++ s]
                                          | None => []
                                          end) kvs) ++ "}")
  end.

(** ** [generateUniqueKey] (lines 82-90).
    [Set.prototype.has] compares by SameValueZero; a container is never a
    member of these sets (the sets hold strings, or names read from distinct
    nodes of a tree). *)
Definition same_value_zero (a b : val) : bool :=
  match a, b with
  | VUndef, VUndef | VNull, VNull => true
  | VBool x, VBool y => Bool.eqb x y
  | VNum x, VNum y => Z.eqb x y
  | VStr x, VStr y => String.eqb x y
  | _, _ => false
  end.

Definition set_has (existingKeys : list val) (k : val) : bool :=
  existsb (same_value_zero k) existingKeys.

(** The [while] loop, given as many rounds as the set has members: among
    the [|existingKeys| + 1] distinct candidates one is free
    ([generateUniqueKey_fresh] below), so the loop has left before the
    rounds run out. *)
Fixpoint unique_key_loop (fuel : nat) (baseKey : val) (existingKeys : list val)
    (newKey : val) (counter : nat) : val :=
  if set_has existingKeys newKey then
    match fuel with
    | O => newKey
    | S fuel' =>
        unique_key_loop fuel' baseKey existingKeys
          (VStr (to_str baseKey ++ "_" ++ show_nat counter)) (S counter)
    end
  else newKey.

Definition generateUniqueKey (baseKey : val) (existingKeys : list val) : val :=
  unique_key_loop (List.length existingKeys) baseKey existingKeys baseKey 1.

(** ** [mergeOperation] (lines 92-180). *)

Definition empty_merged : val :=
  VObj [("dataframe", VObj []); ("operation", VObj [])].

(** The [code_info] given to an edge that has none. *)
Definition default_code_info : val :=
  VObj [("code", VStr ""); ("lineno", VNull); ("file_path", VStr "");
        ("end_lineno", VNull)].

(** [for (const column of nodeColumns) columns[column.column_name] = ...] *)
Definition fold_columns (nodeColumns : val) : res (list (string * val)) :=
  let! cols := iter nodeColumns in
  fold_res (fun columns column =>
              let! name := get column "column_name" in
              let! type_ := get column "column_type" in
              Ok (js_set columns (to_str name) type_)) cols [].

(** State of the node loop: [entityDict], [dataframe],
    [existingDataframeKeys]. *)
Record node_state : Type := {
  entityDict : list (string * val);
  dataframe : list (string * val);
  existingDataframeKeys : list val
}.

Definition node_step (st : node_state) (node : val) : res node_state :=
  let! nodeColumns := get node "columns" in
  let! columns := fold_columns nodeColumns in
  let! name := get node "name" in
  let uniqueKey := generateUniqueKey name (existingDataframeKeys st) in
  let! id := get node "id" in
  Ok {| existingDataframeKeys := existingDataframeKeys st ++ [uniqueKey];
        dataframe := js_set (dataframe st) (to_str uniqueKey)
                       (VObj [("id", id); ("columns", VObj columns)]);
        entityDict := js_set (entityDict st) (to_str id) name |}.

(** [arr.push(x)] *)
Definition push (arr : val) (x : val) : res val :=
  match arr with
  | VArr xs props => Ok (VArr (xs ++ [x]) props)
  | _ => Throw "TypeError: push is not a function"
  end.

(** [mergedOperation[key].source_columns.push(...)] and the same for the
    target columns. *)
Definition push_columns (mergedOp : val) (source_column target_column : val)
    : res val :=
  let! sc := get mergedOp "source_columns" in
  let! sc' := push sc source_column in
  let! m1 := set mergedOp "source_columns" sc' in
  let! tc := get m1 "target_columns" in
  let! tc' := push tc target_column in
  set m1 "target_columns" tc'.

(** State of the edge loop: [mergedOperation] and the edges visited so far,
    as the loop leaves them. *)
Record edge_state : Type := {
  mergedOperation : list (string * val);
  edges_after : list val
}.

Definition edge_key (op src tgt file_path lineno : val) : string :=
  match stringify (VArr [op; src; tgt; file_path; lineno] []) with
  | Some s => s
  | None => ""
  end.

Definition edge_step (st : edge_state) (edge : val) : res edge_state :=
  let! code_info := get edge "code_info" in
  let! edge := (if truthy code_info then Ok edge
                else set edge "code_info" default_code_info) in
  let! code_info := get edge "code_info" in
  let! operation := get edge "operation" in
  let! source_entity := get edge "source_entity" in
  let! target_entity := get edge "target_entity" in
  let! file_path := get code_info "file_path" in
  let! lineno := get code_info "lineno" in
  let key := edge_key operation source_entity target_entity file_path lineno in
  let! source_column := get edge "source_column" in
  let! target_column := get edge "target_column" in
  let! operation_description := get edge "operation_description" in
  let existing := match lookup_v (mergedOperation st) key with
                  | Some m => m
                  | None => VUndef
                  end in
  if negb (truthy existing) then
    Ok {| mergedOperation :=
            js_set (mergedOperation st) key
              (VObj [("code_info", code_info);
                     ("operation", operation);
                     ("source_columns", VArr [source_column] []);
                     ("source_entity", source_entity);
                     ("target_columns", VArr [target_column] []);
                     ("target_entity", target_entity);
                     ("operation_description", operation_description)]);
          edges_after := edges_after st ++ [edge] |}
  else
    let! m := push_columns existing source_column target_column in
    Ok {| mergedOperation := js_set (mergedOperation st) key m;
          edges_after := edges_after st ++ [edge] |}.

(** [const { source_entity_name, target_entity_name, ...rest } = mergedOp] *)
Definition without_names (mergedOp : val) : val :=
  match mergedOp with
  | VObj kvs =>
      VObj (filter (fun kv => negb (String.eqb (fst kv) "source_entity_name"
                                    || String.eqb (fst kv) "target_entity_name"))
                   kvs)
  | _ => mergedOp
  end.

(** [entityDict[id] || 'unknown'] *)
Definition entity_name (dict : list (string * val)) (id : val) : val :=
  let n := match lookup_v dict (to_str id) with Some n => n | None => VUndef end in
  if truthy n then n else VStr "unknown".

(** State of the re-keying loop: [operation], [existingOperationKeys]. *)
Record op_state : Type := {
  operation : list (string * val);
  existingOperationKeys : list val
}.

Definition op_step (dict : list (string * val)) (st : op_state) (mergedOp : val)
    : res op_state :=
  let! source_entity := get mergedOp "source_entity" in
  let! target_entity := get mergedOp "target_entity" in
  let sourceEntityName := entity_name dict source_entity in
  let targetEntityName := entity_name dict target_entity in
  let baseKey := VStr (to_str sourceEntityName ++ "-" ++
                       to_str targetEntityName) in
  let uniqueKey := generateUniqueKey baseKey (existingOperationKeys st) in
  Ok {| existingOperationKeys := existingOperationKeys st ++ [uniqueKey];
        operation := js_set (operation st) (to_str uniqueKey)
                       (without_names mergedOp) |}.

(** [mergeOperation(graph)]: the merged result and the graph as the call
    leaves it (edges without [code_info] receive the default one). *)
Definition mergeOperation (graph : val) : res (val * val) :=
  if negb (truthy graph) then Ok (empty_merged, graph) else
  let! nodes := get graph "nodes" in
  let nodes := if truthy nodes then nodes else VArr [] [] in
  let! edges0 := get graph "edges" in
  let edges := if truthy edges0 then edges0 else VArr [] [] in
  let! node_list := iter nodes in
  let! ns := fold_res node_step node_list
               {| entityDict := []; dataframe := [];
                  existingDataframeKeys := [] |} in
  let! edge_list := iter edges in
  let! es := fold_res edge_step edge_list
               {| mergedOperation := []; edges_after := [] |} in
  let! os := fold_res (op_step (entityDict ns)) (map snd (mergedOperation es))
               {| operation := []; existingOperationKeys := [] |} in
  (* the edge objects of [graph.edges] were mutated in place; a falsy
     [graph.edges] is left as it was *)
  let graph' := match edges0 with
                | VArr _ props => put_entry graph "edges" (VArr (edges_after es) props)
                | _ => graph
                end in
  Ok (VObj [("dataframe", VObj (dataframe ns));
            ("operation", VObj (operation os))], graph').

(** ** [analyzeJob] (lines 182-217). *)

(** One stage of a process: [stageName !== "graph"] has been checked. State:
    [mergedStages] and the process as mutated so far. *)
Definition stage_step (acc : list (string * val) * val)
    (entry : string * val) : res (list (string * val) * val) :=
  let '(mergedStages, process) := acc in
  let '(stageName, stage) := entry in
  if String.eqb stageName "graph" then Ok acc else
  let! stageGraph := get stage "graph" in
  let! merged := (if truthy stageGraph then mergeOperation stageGraph
                  else Ok (empty_merged, stageGraph)) in
  let '(stageMerged, stageGraph') := merged in
  let stage := put_entry stage "graph" stageGraph' in
  let mergedStages := js_set mergedStages stageName stageMerged in
  let! stage := set stage "key_info" stageMerged in
  Ok (mergedStages, put_entry process stageName stage).

(** [mergedReport[jobName][processName] = v] *)
Definition set_job_entry (mergedReport : list (string * val))
    (jobName processName : string) (v : val) : list (string * val) :=
  match lookup_v mergedReport jobName with
  | Some (VObj kvs) => js_set mergedReport jobName (VObj (js_set kvs processName v))
  | _ => mergedReport
  end.

(** One process of a job. State: [mergedReport] and the job as mutated so
    far. *)
Definition process_step (jobName : string)
    (acc : list (string * val) * val) (entry : string * val)
    : res (list (string * val) * val) :=
  let '(mergedReport, job) := acc in
  let '(processName, process) := entry in
  let! processGraph := get process "graph" in
  let! merged := mergeOperation processGraph in
  let '(processMerged, processGraph') := merged in
  let process := put_entry process "graph" processGraph' in
  let mergedReport :=
    if truthy (match lookup_v mergedReport jobName with
               | Some v => v | None => VUndef end)
    then mergedReport else js_set mergedReport jobName (VObj []) in
  let! stageEntries := entries process in
  let! stages := fold_res stage_step stageEntries ([], process) in
  let '(mergedStages, process) := stages in
  (* [processMerged.stages = mergedStages], with [mergedStages] as the stage
     loop leaves it: this one object is both [mergedReport[jobName]
     [processName]] and [process.key_info]. *)
  let! processMerged := set processMerged "stages" (VObj mergedStages) in
  let mergedReport := set_job_entry mergedReport jobName processName
                        processMerged in
  let! process := set process "key_info" processMerged in
  Ok (mergedReport, put_entry job processName process).

Definition job_step (acc : list (string * val) * val) (entry : string * val)
    : res (list (string * val) * val) :=
  let '(mergedReport, jobs) := acc in
  let '(jobName, job) := entry in
  let! processEntries := entries job in
  let! r := fold_res (process_step jobName) processEntries (mergedReport, job) in
  let '(mergedReport, job) := r in
  Ok (mergedReport, put_entry jobs jobName job).

(** [analyzeJob(jobs)]: [[mergedReport, jobs]], the second component being
    the input as the call leaves it. *)
Definition analyzeJob (jobs : val) : res (val * val) :=
  let! jobEntries := entries jobs in
  let! r := fold_res job_step jobEntries ([], jobs) in
  let '(mergedReport, jobs) := r in
  Ok (VObj mergedReport, jobs).

(** ** [analyzeXmlReport] (lines 219-244). *)

Definition lower_char (c : ascii) : ascii :=
  let n := nat_of_ascii c in
  if (Nat.leb 65 n && Nat.leb n 90)%bool then ascii_of_nat (n + 32) else c.

Fixpoint toLowerCase (s : string) : string :=
  match s with
  | EmptyString => EmptyString
  | String c t => String (lower_char c) (toLowerCase t)
  end.

Fixpoint starts_with (s p : string) : bool :=
  match p, s with
  | EmptyString, _ => true
  | String a p', String b s' => Ascii.eqb a b && starts_with s' p'
  | String _ _, EmptyString => false
  end.

(** [s.includes(p)] *)
Fixpoint str_includes (s p : string) : bool :=
  starts_with s p ||
  match s with
  | EmptyString => false
  | String _ s' => str_includes s' p
  end.

(** The loop over [Object.entries(report)]. State: [mergedReport] and the
    report as mutated so far. *)
Definition xml_step (acc : list (string * val) * val) (entry : string * val)
    : res (list (string * val) * val) :=
  let '(mergedReport, report) := acc in
  let '(xmlName, jobs) := entry in
  if str_includes (toLowerCase xmlName) ".xml" then
    let! r := analyzeJob jobs in
    let '(mergedJobs, updatedJobs) := r in
    let! report := set report xmlName updatedJobs in
    Ok (js_set mergedReport xmlName mergedJobs, report)
  else Ok acc.

(** [report.report.report_result.graph = g] after the graph found there was
    mutated in place. *)
Definition put_fallback_graph (report : val) (g : val) : val :=
  let r := get_opt report "report" in
  let rr := get_opt r "report_result" in
  put_entry report "report" (put_entry r "report_result" (put_entry rr "graph" g)).

(** [analyzeXmlReport(report)]: [[mergedReport, report]], the second
    component being the input report as the call leaves it. *)
Definition analyzeXmlReport (report : val) : res (val * val) :=
  let! graph := get report "graph" in
  let fallback :=
    get_opt (get_opt (get_opt report "report") "report_result") "graph" in
  let! pre :=
    (if truthy graph then Ok (Some (report, false))
     else if truthy fallback then
       let! report := set report "graph" fallback in Ok (Some (report, true))
     else Ok None) in
  match pre with
  | None => Ok (VObj [("entire_report", empty_merged)], report)
  | Some (report, aliased) =>
      let! reportGraph := get report "graph" in
      let! merged := mergeOperation reportGraph in
      let '(reportMerged, reportGraph') := merged in
      let report := put_entry report "graph" reportGraph' in
      let report := if aliased then put_fallback_graph report reportGraph'
                    else report in
      let mergedReport := [("entire_report", reportMerged)] in
      let! report := set report "key_info" reportMerged in
      let! reportEntries := entries report in
      let! r := fold_res xml_step reportEntries (mergedReport, report) in
      let '(mergedReport, report) := r in
      Ok (VObj mergedReport, report)
  end.

(** [convertReport(originalReport)] *)
Definition convertReport (originalReport : val) : res (val * val) :=
  analyzeXmlReport originalReport.

End Convert.

(** * Notions of the specification of the normalizer, and sample inputs *)
Module ConvertSpec.
Import Convert.

(** ** Disambiguated keys as the specification describes them: a name not
    yet used is its own key; otherwise the key is [name_j] for the least
    [j >= 1] whose candidate is not yet used. *)
Definition suffixed (name : string) (j : nat) : string :=
  name ++ "_" ++ show_nat j.

Definition key_ok (used : list string) (name key : string) : Prop :=
  (~ In name used /\ key = name) \/
  (In name used /\
   exists j, 1 <= j /\ key = suffixed name j /\ ~ In key used /\
             forall i, 1 <= i < j -> In (suffixed name i) used).

(** The [j]-th key [generateUniqueKey] tries for [name]. *)
Definition candidate (name : string) (j : nat) : string :=
  match j with O => name | S _ => suffixed name j end.

(** [keys] are the keys given, in order, to [names], each one chosen among
    the keys given before it. *)
Fixpoint keys_ok (used : list string) (names keys : list string) : Prop :=
  match names, keys with
  | [], [] => True
  | n :: ns, k :: ks => key_ok used n k /\ keys_ok (used ++ [k]) ns ks
  | _, _ => False
  end.

(** The [name] of a node, a string in a typed [Node]. *)
Definition node_name (node : val) : string :=
  match get_opt node "name" with VStr s => s | _ => EmptyString end.

Definition has_string_name (node : val) : Prop :=
  exists s, get node "name" = Ok (VStr s).

(** ** Edge identity: the tuple [(operation, source_entity, target_entity,
    code_info.file_path, code_info.lineno)] of a typed [Edge]. *)
Definition tuple : Type := (string * string * string * string * option Z)%type.

Definition tuple_eqb (a b : tuple) : bool :=
  let '(o, s, t, f, l) := a in
  let '(o', s', t', f', l') := b in
  String.eqb o o' && String.eqb s s' && String.eqb t t' && String.eqb f f' &&
  match l, l' with
  | Some x, Some y => Z.eqb x y
  | None, None => true
  | _, _ => false
  end.

Definition str_field (v : val) (k : string) : option string :=
  match get_opt v k with VStr s => Some s | _ => None end.

Definition line_field (v : val) : option (option Z) :=
  match get_opt v "lineno" with
  | VNum n => Some (Some n)
  | VNull => Some None
  | _ => None
  end.

Definition edge_tuple (edge : val) : option tuple :=
  let ci := get_opt edge "code_info" in
  match str_field edge "operation", str_field edge "source_entity",
        str_field edge "target_entity", str_field ci "file_path",
        line_field ci with
  | Some o, Some s, Some t, Some f, Some l => Some (o, s, t, f, l)
  | _, _, _, _, _ => None
  end.

(** An edge object whose missing [code_info] is replaced by the empty
    record. *)
Definition with_code_info (edge : val) : val :=
  match edge with
  | VObj kvs =>
      if truthy (get_opt edge "code_info") then edge
      else VObj (js_set kvs "code_info" default_code_info)
  | _ => edge
  end.

(** A typed [Edge]: an object with string [operation], [source_entity] and
    [target_entity], and a [code_info] that is missing or a [CodeInfo]
    (string [file_path], [lineno] a number or [null]). *)
Definition wf_edge (edge : val) : Prop :=
  (exists kvs, edge = VObj kvs) /\ edge_tuple (with_code_info edge) <> None.

Definition tuple_of (edge : val) : tuple :=
  match edge_tuple edge with
  | Some t => t
  | None => (EmptyString, EmptyString, EmptyString, EmptyString, None)
  end.

(** Grouping by tuple equality, groups in order of first occurrence and each
    group in encounter order. *)
Fixpoint group_add (t : tuple) (e : val) (gs : list (tuple * list val))
    : list (tuple * list val) :=
  match gs with
  | [] => [(t, [e])]
  | (t', g) :: r =>
      if tuple_eqb t' t then (t', (g ++ [e])%list) :: r
      else (t', g) :: group_add t e r
  end.

Definition group_edges (edges : list val) : list (tuple * list val) :=
  fold_left (fun gs e => group_add (tuple_of e) e gs) edges [].

(** The merged entry of a group: the columns of all its edges in order, every
    other field from its first edge. *)
Definition merged_of_group (g : list val) : val :=
  match g with
  | [] => VUndef
  | e :: _ =>
      VObj [("code_info", get_opt e "code_info");
            ("operation", get_opt e "operation");
            ("source_columns", VArr (map (fun x => get_opt x "source_column") g) []);
            ("source_entity", get_opt e "source_entity");
            ("target_columns", VArr (map (fun x => get_opt x "target_column") g) []);
            ("target_entity", get_opt e "target_entity");
            ("operation_description", get_opt e "operation_description")]
  end.

(** ** Entity names of operation keys. *)

(** The name the node table records for an id: that of the last node with
    this id. *)
Definition recorded_name (nodes : list val) (id : string) : option string :=
  fold_left (fun acc n => if String.eqb (to_str (get_opt n "id")) id
                          then Some (node_name n) else acc) nodes None.

(** The claimed rule: the recorded name, ["unknown"] for an id absent from
    the table. *)
Definition claimed_label (nodes : list val) (id : string) : string :=
  match recorded_name nodes id with Some s => s | None => "unknown" end.

(** The rule of [entityDict[id] || 'unknown']: an empty recorded name is
    falsy as well. *)
Definition name_label (nodes : list val) (id : string) : string :=
  match recorded_name nodes id with
  | Some s => if String.eqb s "" then "unknown" else s
  | None => "unknown"
  end.

Definition entity_of (edge : val) (k : string) : string :=
  match str_field edge k with Some s => s | None => EmptyString end.

(** The base key of a group's operation entry. *)
Definition op_base (nodes : list val) (g : list val) : string :=
  match g with
  | [] => EmptyString
  | e :: _ => name_label nodes (entity_of e "source_entity") ++ "-" ++
              name_label nodes (entity_of e "target_entity")
  end.

(** The key [mergeOperation] computes for an edge of tuple [t]. *)
Definition line_str (l : option Z) : string :=
  match l with Some n => show_Z n | None => "null" end.

Definition tuple_key (t : tuple) : string :=
  let '(o, s, tg, f, l) := t in
  edge_key (VStr o) (VStr s) (VStr tg) (VStr f)
    (match l with Some n => VNum n | None => VNull end).

(** The [mergedOperation] map that holds the merged entries of groups [gs],
    in order. *)
Definition encode_groups (gs : list (tuple * list val)) : list (string * val) :=
  map (fun tg => (tuple_key (fst tg), merged_of_group (snd tg))) gs.

(** ** Reading back one character of a [JSON.stringify] string literal.
    [unescape_char] undoes [escape_char]; it shows that distinct tuples have
    distinct keys. *)
Definition hex_value (h : ascii) : nat :=
  let n := nat_of_ascii h in if Nat.ltb n 58 then n - 48 else n - 87.

Definition unescape_char (s : string) : option (ascii * string) :=
  match s with
  | EmptyString => None
  | String c t =>
      if Ascii.eqb c bs then
        match t with
        | String e t' =>
            if Ascii.eqb e "b" then Some (ascii_of_nat 8, t')
            else if Ascii.eqb e "t" then Some (ascii_of_nat 9, t')
            else if Ascii.eqb e "n" then Some (ascii_of_nat 10, t')
            else if Ascii.eqb e "f" then Some (ascii_of_nat 12, t')
            else if Ascii.eqb e "r" then Some (ascii_of_nat 13, t')
            else if Ascii.eqb e dq then Some (dq, t')
            else if Ascii.eqb e bs then Some (bs, t')
            else if Ascii.eqb e "u" then
              match t' with
              | String _ (String _ (String h1 (String h2 r))) =>
                  Some (ascii_of_nat (hex_value h1 * 16 + hex_value h2), r)
              | _ => None
              end
            else None
        | EmptyString => None
        end
      else if Ascii.eqb c dq then None
      else Some (c, t)
  end.

(** ** Sample inputs *)
Definition column (n t : string) : val :=
  VObj [("column_name", VStr n); ("column_type", VStr t)].

Definition node_of (id name : string) (columns : val) : val :=
  VObj [("id", VStr id); ("name", VStr name); ("columns", columns)].

Definition edge_of (op src tgt sc tc : string) : val :=
  VObj [("operation", VStr op); ("source_entity", VStr src);
        ("target_entity", VStr tgt); ("source_column", VStr sc);
        ("target_column", VStr tc); ("operation_description", VStr op)].

Definition code_info_of (file : string) (line : Z) : val :=
  VObj [("code", VStr EmptyString); ("lineno", VNum line);
        ("file_path", VStr file); ("end_lineno", VNull)].

Definition with_info (edge : val) (ci : val) : val :=
  match edge with VObj kvs => VObj (kvs ++ [("code_info", ci)]) | _ => edge end.

Definition graph_of (nodes edges : list val) : val :=
  VObj [("nodes", VArr nodes []); ("edges", VArr edges [])].

(** Two nodes named [orders]. *)
Definition orders_graph : val :=
  graph_of [node_of "1" "orders" (VArr [column "a" "int"] []);
            node_of "2" "orders" (VArr [column "b" "int"] [])] [].

(** Two [join] edges [n1 -> n2] at [a.py] line 10 with different columns. *)
Definition join_graph : val :=
  graph_of [node_of "n1" "t1" (VArr [] []); node_of "n2" "t2" (VArr [] [])]
    [with_info (edge_of "join" "n1" "n2" "a" "x") (code_info_of "a.py" 10);
     with_info (edge_of "join" "n1" "n2" "b" "y") (code_info_of "a.py" 10)].

(** A node whose columns are already a name-to-type mapping. *)
Definition mapping_columns_graph : val :=
  graph_of [node_of "1" "t" (VObj [("a", VStr "int")])] [].

(** The end-to-end sample: nodes [t1], [t2] and one [select] edge without
    [code_info]. *)
Definition select_graph : val :=
  graph_of [node_of "1" "t1" (VArr [column "a" "int"] []);
            node_of "2" "t2" (VArr [column "b" "int"] [])]
    [edge_of "select" "1" "2" "a" "b"].


(** A report whose only graph is the fallback one under
    [report.report.report_result.graph]. *)
Definition fallback_report : val :=
  VObj [("report", VObj [("report_result", VObj [("graph", select_graph)])])].

(** A report with a job collection but no graph, neither at the top nor at
    [report.report.report_result.graph]. *)
Definition xml_only_report : val :=
  VObj [("job.xml", VObj [("job", VObj [("process", VObj [("graph", select_graph)])])])].

(** Two edges of different operations between the same nodes, and one edge
    from an id that no node has. *)
Definition op_keys_graph : val :=
  graph_of [node_of "1" "t1" (VArr [] []); node_of "2" "t2" (VArr [] [])]
    [edge_of "select" "1" "2" "a" "b"; edge_of "join" "1" "2" "a" "b";
     edge_of "x" "9" "2" "c" "d"].

(** A node with an empty name. *)
Definition empty_name_graph : val :=
  graph_of [node_of "1" "" (VArr [] []); node_of "2" "t2" (VArr [] [])]
    [edge_of "select" "1" "2" "a" "b"].

(** ** Column mappings, dataframe entries and processes *)
(** The type a column gives to key [k], if its name converts to [k]. *)
Definition column_step (acc : option val) (column : val) (k : string) : option val :=
  if String.eqb (to_str (get_opt column "column_name")) k
  then Some (get_opt column "column_type") else acc.

(** The type given to key [k] by the last column named [k]. *)
Definition last_column_type (cols : list val) (k : string) : option val :=
  fold_left (fun acc c => column_step acc c k) cols None.

(** Neither [undefined] nor [null]: reading a property does not throw. *)
Definition present (v : val) : Prop := v <> VUndef /\ v <> VNull.

(** A node and the dataframe entry built for it. *)
Definition node_entry (node entry : val) : Prop :=
  exists nodeColumns columns,
    get node "columns" = Ok nodeColumns /\
    fold_columns nodeColumns = Ok columns /\
    entry = VObj [("id", get_opt node "id"); ("columns", VObj columns)].

(** Not an object or array. *)
Definition primitive (v : val) : bool :=
  match v with VArr _ _ | VObj _ => false | _ => true end.

(** A job entry whose value has at least one process entry. *)
Definition has_process (entry : string * val) : bool :=
  match entries (snd entry) with Ok (_ :: _) => true | _ => false end.

(** [xmlName.toLowerCase().includes('.xml')] *)
Definition is_xml (k : string) : bool := str_includes (toLowerCase k) ".xml".

(** [report?.report?.report_result?.graph] *)
Definition fallback_graph (report : val) : val :=
  get_opt (get_opt (get_opt report "report") "report_result") "graph".

(** [stageName !== "graph"] *)
Definition not_graph (k : string) : bool := negb (String.eqb k "graph").


(** A job collection with one job whose process has the sample graph. *)
Definition xml_jobs : val :=
  VObj [("job", VObj [("process", VObj [("graph", select_graph)])])].

End ConvertSpec.

(** * Notions for properties of the comparison engine *)
Module CompareSpec.
Import Compare.

(** The identities of the containers of a value. *)
Fixpoint ids (v : json) : list nat :=
  match v with
  | JArr id xs => id :: flat_map ids xs
  | JObj id kvs => id :: flat_map (fun kv => ids (snd kv)) kvs
  | _ => []
  end.

(** Absence of duplicates, decided with [eqb]. *)
Fixpoint nodupb {A} (eqb : A -> A -> bool) (l : list A) : bool :=
  match l with
  | [] => true
  | x :: t => negb (existsb (eqb x) t) && nodupb eqb t
  end.

(** Every object has distinct keys. *)
Fixpoint keys_unique (v : json) : bool :=
  match v with
  | JArr _ xs => forallb keys_unique xs
  | JObj _ kvs => nodupb String.eqb (keys kvs) &&
                  forallb (fun kv => keys_unique (snd kv)) kvs
  | _ => true
  end.

(** A value as [JSON.parse] builds it: no container occurs twice and
    object keys are distinct. *)
Definition is_tree (v : json) : bool := nodupb Nat.eqb (ids v) && keys_unique v.

(** The number of primitive values reachable from a value through
    properties not listed in [ig]. *)
Fixpoint leaves (ig : list string) (v : json) : nat :=
  match v with
  | JArr _ xs => list_sum (map (leaves ig) xs)
  | JObj _ kvs => list_sum (map (fun kv => if includes (fst kv) ig then 0
                                           else leaves ig (snd kv)) kvs)
  | _ => 1
  end.

(** Two documents that differ in an ignored property ([id]) and in the
    length of an array. *)
Definition doc_a : json :=
  JObj 1 [("id", JNum 7); ("name", JStr "t"); ("cols", JArr 2 [JStr "a"; JStr "b"])].

Definition doc_b : json :=
  JObj 3 [("id", JNum 8); ("name", JStr "t"); ("cols", JArr 4 [JStr "a"])].

End CompareSpec.

(** * Properties of the comparison engine *)
Module CompareFacts.
Import Compare.

Ltac split_ifs :=
  repeat match goal with |- context [if ?c then _ else _] => destruct c end.

(** Induction over JSON values, through the nested lists. *)
Section JsonInd.
Variable P : json -> Prop.
Hypothesis HNull : P JNull.
Hypothesis HBool : forall b, P (JBool b).
Hypothesis HNum : forall n, P (JNum n).
Hypothesis HStr : forall s, P (JStr s).
Hypothesis HArr : forall id xs, Forall P xs -> P (JArr id xs).
Hypothesis HObj : forall id kvs, Forall (fun kv => P (snd kv)) kvs ->
                                 P (JObj id kvs).

Fixpoint json_ind' (v : json) : P v :=
  match v with
  | JNull => HNull
  | JBool b => HBool b
  | JNum n => HNum n
  | JStr s => HStr s
  | JArr id xs =>
      HArr id xs ((fix go (l : list json) : Forall P l :=
                     match l with
                     | [] => Forall_nil _
                     | x :: t => Forall_cons _ (json_ind' x) (go t)
                     end) xs)
  | JObj id kvs =>
      HObj id kvs ((fix go (l : list (string * json))
                      : Forall (fun kv => P (snd kv)) l :=
                     match l with
                     | [] => Forall_nil _
                     | kv :: t => Forall_cons _ (json_ind' (snd kv)) (go t)
                     end) kvs)
  end.
End JsonInd.

(** Once both sides are present, [compareValues] of part_001 only answers
    [same] or [modified]. *)
Lemma compareValues_present_both (l r : json) (p : string) :
  compareValues_present l (Some r) p = same \/
  compareValues_present l (Some r) p = modified.
Proof.
  destruct l as [| | | | idl ls | idl lo], r as [| | | | idr rs | idr ro];
    simpl; split_ifs; auto.
  - generalize 0%nat. revert rs.
    induction ls as [|x ls IH]; intros [|y rs] i; auto.
    simpl. split_ifs; auto.
  - generalize (dedup (keys lo ++ keys ro)) as ks.
    induction ks as [|k ks IH]; auto.
    simpl. split_ifs; auto.
Qed.

Lemma compareValues_present_none (l : json) (p : string) :
  compareValues_present l None p = removed.
Proof. destruct l; reflexivity. Qed.

(** On an absent left side [_.isEqual] holds exactly when the right side is
    absent too. *)
Lemma isEqualU_none_l (b : option json) :
  isEqualU None b = match b with None => true | Some _ => false end.
Proof. destruct b; reflexivity. Qed.

Lemma isEqualU_none_r (a : json) : isEqualU (Some a) None = false.
Proof. reflexivity. Qed.

(** Claim C1, as stated: [classify(a, b, p)] is [removed] exactly when [a] is
    absent and [b] present. Both revisions answer [added] for an absent left
    side and a present right side, so the equivalence fails there. *)
Lemma C1_counterexample :
  ~ (compareValues_v1 None (Some (JStr "x")) "" = removed <->
     (None = @None json /\ Some (JStr "x") <> None)) /\
  ~ (compareValues_v2 None (Some (JStr "x")) = removed <->
     (None = @None json /\ Some (JStr "x") <> None)).
Proof.
  assert (Hx : Some (JStr "x") <> None) by discriminate.
  split; intros [_ H]; specialize (H (conj eq_refl Hx)); discriminate H.
Qed.

(** Claim C1, amended: [compareValues(left, right, path)] answers [added]
    exactly when the left side is absent (part_001; in App.tsx: the left side
    absent and the right side present), and [removed] exactly when the left
    side is present and the right side absent, in both revisions. *)
Theorem C1_added_removed_exact (a b : option json) (p : string) :
  (compareValues_v1 a b p = added <-> a = None) /\
  (compareValues_v1 a b p = removed <-> a <> None /\ b = None) /\
  (compareValues_v2 a b = added <-> a = None /\ b <> None) /\
  (compareValues_v2 a b = removed <-> a <> None /\ b = None).
Proof.
  destruct a as [l|], b as [r|].
  - assert (H2 : compareValues_v2 (Some l) (Some r) = same \/
                 compareValues_v2 (Some l) (Some r) = modified).
    { unfold compareValues_v2. split_ifs; auto. }
    assert (H1 := compareValues_present_both l r p).
    unfold compareValues_v1.
    destruct H1 as [E1|E1], H2 as [E2|E2]; rewrite E1, E2;
      intuition congruence.
  - unfold compareValues_v1, compareValues_v2.
    rewrite compareValues_present_none, isEqualU_none_r.
    intuition congruence.
  - unfold compareValues_v1, compareValues_v2. rewrite isEqualU_none_l.
    intuition congruence.
  - unfold compareValues_v1, compareValues_v2. rewrite isEqualU_none_l.
    intuition congruence.
Qed.

(** Claim C10: the two revisions of the classifier differ when both sides are
    absent: part_001 tests [left === undefined] first and answers [added],
    App.tsx tests [_.isEqual] first and answers [same]. *)
Theorem C10_revisions_differ_on_absent_pair (p : string) :
  compareValues_v1 None None p = added /\
  compareValues_v2 None None = same /\
  compareValues_v1 None None p <> compareValues_v2 None None.
Proof. split; [|split]; [reflexivity|reflexivity|discriminate]. Qed.

(** ** [compareObjects] *)

Lemma fold_left_ext_in {A B} (f g : A -> B -> A) (l : list B) (a : A) :
  (forall x acc, In x l -> f acc x = g acc x) ->
  fold_left f l a = fold_left g l a.
Proof.
  revert a; induction l as [|x l IH]; intros a H; simpl; auto.
  rewrite H by (left; reflexivity). apply IH. intros; apply H; now right.
Qed.

Lemma find_then_key (kvs : list (string * json)) (prop : string) :
  In prop (keys kvs) ->
  exists v, lookup kvs prop = Some v /\ In v (map snd kvs) /\
            forall A (f : json -> A) d, find_then f d prop kvs = f v.
Proof.
  induction kvs as [|[k v] t IH]; simpl; [tauto|].
  intros Hin. destruct (String.eqb k prop) eqn:E.
  - exists v. auto.
  - destruct Hin as [Hk|Hin].
    + subst k. rewrite String.eqb_refl in E. discriminate.
    + destruct (IH Hin) as (w & H1 & H2 & H3). exists w. auto.
Qed.

Lemma Forall_snd {P : json -> Prop} (kvs : list (string * json)) (v : json) :
  Forall (fun kv => P (snd kv)) kvs -> In v (map snd kvs) -> P v.
Proof.
  intros HF Hin. apply in_map_iff in Hin as ([k w] & <- & Hin).
  rewrite Forall_forall in HF. exact (HF _ Hin).
Qed.

Lemma includes_In (x : string) (l : list string) :
  includes x l = true <-> In x l.
Proof.
  unfold includes. rewrite existsb_exists. split.
  - intros (y & Hy & E). apply String.eqb_eq in E. now subst.
  - intros H. exists x. split; auto. apply String.eqb_refl.
Qed.

Lemma comparable_in_keys (ig : list string) (obj : list (string * json))
    (prop : string) :
  In prop (getComparableProps ig obj) -> In prop (keys obj).
Proof. unfold getComparableProps. rewrite filter_In. tauto. Qed.

(** Matching a value against itself walks it exactly as counting its
    properties does: same counts, same visited set. *)
Lemma countMatches_self (ig : list string) (x : json) (c : visited) :
  countMatches ig x x c = countProperties ig x c.
Proof.
  revert c. induction x as [| b | n | s | id xs IH | id kvs IH] using json_ind';
    intros c; try reflexivity.
  - destruct b; reflexivity.
  - simpl. rewrite Z.eqb_refl. reflexivity.
  - simpl. rewrite String.eqb_refl. reflexivity.
  - simpl. destruct (has c id); [reflexivity|].
    assert (G : forall (pre suf : list json) acc, xs = (pre ++ suf)%list ->
      array_matches (countMatches ig) xs suf (List.length pre) acc =
      fold_left (fun acc item =>
                   let '(sum, c) := acc in
                   let '(n, c') := countProperties ig item c in (sum + n, c'))
                suf acc).
    { intros pre suf. revert pre. induction suf as [|y suf IHs];
        intros pre [m c0] E; [reflexivity|].
      assert (Hn : nth_error xs (List.length pre) = Some y)
        by (rewrite E, nth_error_app2, Nat.sub_diag by lia; reflexivity).
      simpl. rewrite Hn.
      rewrite Forall_forall in IH.
      rewrite IH by (rewrite E; apply in_or_app; right; left; reflexivity).
      destruct (countProperties ig y c0) as [n c1].
      replace (S (List.length pre)) with (List.length (pre ++ [y])%list)
        by (rewrite length_app; simpl; lia).
      apply IHs. rewrite E, <- app_assoc. reflexivity. }
    exact (G [] xs _ eq_refl).
  - simpl. destruct (has c id); [reflexivity|].
    apply fold_left_ext_in. intros prop [m c0] Hp.
    apply comparable_in_keys in Hp.
    assert (Hk : has_key kvs prop = true) by (apply includes_In; exact Hp).
    rewrite Hk. simpl.
    destruct (find_then_key kvs prop Hp) as (v & Hl & Hv & Hf).
    pose proof (@Forall_snd (fun x => forall c,
                  countMatches ig x x c = countProperties ig x c)
                  kvs v IH Hv) as Hv'. cbv beta in Hv'.
    rewrite !Hf, Hl, Hv'. reflexivity.
Qed.

(** Claim C6: [compareObjects(x, x, [])] reports a similarity of exactly 100
    and as many matching properties as properties in total, for every JSON
    value, including values with shared (aliased) containers. *)
Theorem C6_compare_self_is_100 (x : json) :
  (similarityPercentage (compareObjects x x []) == 100)%Q /\
  matchingProperties (compareObjects x x []) =
  totalProperties (compareObjects x x []).
Proof.
  unfold compareObjects. rewrite countMatches_self.
  destruct (countProperties [] x []) as [t c]. simpl. split; [|reflexivity].
  unfold result_of. destruct t as [|t'].
  - vm_compute. reflexivity.
  - cbv [similarityPercentage Nat.eqb]. set (t := S t').
    assert (Ht : ~ (nat_to_Q t == 0)%Q).
    { intros H. unfold t, nat_to_Q, Qeq in H. simpl in H. lia. }
    assert (E : (nat_to_Q t / nat_to_Q t * 100 * 100 + (1 # 2)
                 == 10000 + (1 # 2))%Q).
    { unfold Qdiv. rewrite Qmult_inv_r by exact Ht. reflexivity. }
    unfold math_round. rewrite E. vm_compute. reflexivity.
Qed.

(** Claim C9: the latest [compareObjects] takes [totalProperties] from the
    recursive count of [documentA] alone, whatever [documentB] is; the earlier
    revision of part_000 takes the larger of the two documents' counts. *)
Theorem C9_total_from_left_only (a b b' : json) (ig : list string) :
  totalProperties (compareObjects a b ig) = fst (countProperties ig a []) /\
  totalProperties (compareObjects a b ig) =
  totalProperties (compareObjects a b' ig) /\
  totalProperties (compareObjects_v0 a b ig) =
  Nat.max (fst (countProperties ig a [])) (fst (countProperties ig b [])).
Proof. repeat split. Qed.

End CompareFacts.

(** * Properties of the normalizer *)
Module ConvertFacts.
Import Convert ConvertSpec.

(** ** Evaluated samples *)

(** [C2] (divergence). The columns of a node are iterated with [for ... of]
    after the cast [node.columns as Column[]]: columns already given as a
    name-to-type mapping make [mergeOperation] throw, and so do [null] and
    number columns; string columns are iterated character by character into
    the map [{undefined: undefined}] instead of an empty column map. *)
Theorem C2_mapping_columns_throw :
  mergeOperation mapping_columns_graph = Throw "TypeError: is not iterable" /\
  mergeOperation (graph_of [node_of "1" "t" VNull] []) =
    Throw "TypeError: is not iterable" /\
  mergeOperation (graph_of [node_of "1" "t" (VNum 3)] []) =
    Throw "TypeError: is not iterable" /\
  (exists g',
     mergeOperation (graph_of [node_of "1" "t" (VStr "ab")] []) =
     Ok (VObj [("dataframe",
                VObj [("t", VObj [("id", VStr "1");
                                  ("columns", VObj [("undefined", VUndef)])])]);
               ("operation", VObj [])], g')).
Proof.
  repeat split; [vm_compute; reflexivity ..|].
  eexists. vm_compute. reflexivity.
Qed.


(** [C4] (counterexample). A report with a job collection under [job.xml]
    but no graph, neither at the top nor at
    [report.report.report_result.graph]: the function returns before walking
    the top-level keys, so the merged report only holds the empty
    [entire_report], although [job.xml] passes the [.xml] test and its
    process graph merges to a non-empty result. *)
Lemma C4_counterexample :
  analyzeXmlReport xml_only_report =
    Ok (VObj [("entire_report", empty_merged)], xml_only_report) /\
  str_includes (toLowerCase "job.xml") ".xml" = true /\
  (exists m g', mergeOperation select_graph = Ok (m, g') /\ m <> empty_merged).
Proof.
  split; [vm_compute; reflexivity|].
  split; [reflexivity|].
  do 2 eexists. split; [vm_compute; reflexivity | discriminate].
Qed.

(** [C8] (counterexample). In [empty_name_graph] the source id ["1"] is in
    the node table with the recorded name [""]; the operation key is
    ["unknown-t2"], not ["-t2"], since [entityDict[id] || 'unknown'] also
    replaces a falsy name. *)
Lemma C8_counterexample :
  recorded_name [node_of "1" "" (VArr [] []); node_of "2" "t2" (VArr [] [])] "1"
    = Some EmptyString /\
  (exists m g' o,
     mergeOperation empty_name_graph = Ok (m, g') /\
     get m "operation" = Ok (VObj o) /\
     map fst o = ["unknown-t2"] /\
     map fst o <>
       [claimed_label [node_of "1" "" (VArr [] []); node_of "2" "t2" (VArr [] [])] "1"
        ++ "-" ++
        claimed_label [node_of "1" "" (VArr [] []); node_of "2" "t2" (VArr [] [])] "2"]).
Proof.
  split; [reflexivity|].
  do 3 eexists. split; [vm_compute; reflexivity|].
  split; [vm_compute; reflexivity|].
  vm_compute. split; [reflexivity | discriminate].
Qed.

(** ** Keys given by [generateUniqueKey] *)

Lemma string_app_inj_l (p s1 s2 : string) : p ++ s1 = p ++ s2 -> s1 = s2.
Proof. induction p as [|c p IH]; simpl; intros H; [exact H | injection H; auto]. Qed.

Lemma string_length_app (s1 s2 : string) :
  String.length (s1 ++ s2) = String.length s1 + String.length s2.
Proof. induction s1; simpl; auto. Qed.

Lemma show_nat_inj (a b : nat) : show_nat a = show_nat b -> a = b.
Proof.
  unfold show_nat. intros H.
  apply (f_equal NilEmpty.uint_of_string) in H. rewrite !NilEmpty.usu in H.
  injection H as H.
  rewrite <- (DecimalNat.Unsigned.of_to a), <- (DecimalNat.Unsigned.of_to b), H.
  reflexivity.
Qed.

Lemma suffixed_neq (name : string) (j : nat) : suffixed name j <> name.
Proof.
  unfold suffixed. intros H. apply (f_equal String.length) in H.
  rewrite string_length_app in H. simpl in H. lia.
Qed.

Lemma candidate_inj (name : string) : Injective (candidate name).
Proof.
  intros [|i] [|j]; simpl; intros H; auto.
  - symmetry in H. apply suffixed_neq in H. contradiction.
  - apply suffixed_neq in H. contradiction.
  - unfold suffixed in H. apply string_app_inj_l in H. injection H as H.
    apply show_nat_inj in H. exact H.
Qed.

Lemma set_has_str (l : list string) (k : string) :
  set_has (map VStr l) (VStr k) = true <-> In k l.
Proof.
  unfold set_has. induction l as [|a l IH]; simpl.
  - split; [discriminate | contradiction].
  - rewrite Bool.orb_true_iff, IH, String.eqb_eq. intuition congruence.
Qed.

Lemma unique_key_loop_spec (name : string) (l : list string) :
  forall fuel j,
  (forall i, i < j -> In (candidate name i) l) ->
  List.length l <= fuel + j ->
  exists k, unique_key_loop fuel (VStr name) (map VStr l)
              (VStr (candidate name j)) (S j) = VStr (candidate name k) /\
            ~ In (candidate name k) l /\
            forall i, i < k -> In (candidate name i) l.
Proof.
  induction fuel as [|fuel IH]; intros j Hpre Hlen; simpl.
  - destruct (set_has (map VStr l) (VStr (candidate name j))) eqn:E.
    + exfalso. apply set_has_str in E.
      assert (Hinc : incl (map (candidate name) (seq 0 (S j))) l).
      { intros x Hx. apply in_map_iff in Hx. destruct Hx as [i [<- Hi]].
        apply in_seq in Hi. destruct (Nat.eq_dec i j) as [->|Hne]; auto.
        apply Hpre. lia. }
      apply NoDup_incl_length in Hinc.
      * rewrite length_map, length_seq in Hinc. lia.
      * apply Injective_map_NoDup; [apply candidate_inj | apply seq_NoDup].
    + exists j. repeat split; auto.
      intros Hin. apply set_has_str in Hin. congruence.
  - destruct (set_has (map VStr l) (VStr (candidate name j))) eqn:E.
    + apply set_has_str in E.
      destruct (IH (S j)) as [k [Hk [Hnot Hall]]].
      * intros i Hi. destruct (Nat.eq_dec i j) as [->|Hne]; auto.
        apply Hpre. lia.
      * lia.
      * exists k. split; auto.
    + exists j. repeat split; auto.
      intros Hin. apply set_has_str in Hin. congruence.
Qed.

Lemma generateUniqueKey_spec (name : string) (l : list string) :
  exists k, generateUniqueKey (VStr name) (map VStr l) = VStr k /\ key_ok l name k.
Proof.
  unfold generateUniqueKey. rewrite length_map.
  destruct (unique_key_loop_spec name l (List.length l) 0) as [k [Hk [Hnot Hall]]].
  - intros i Hi. lia.
  - lia.
  - simpl in Hk. exists (candidate name k). split; [exact Hk|].
    destruct k as [|k].
    + left. split; auto.
    + right. split; [apply (Hall 0); lia|].
      exists (S k). repeat split; auto; try lia.
      intros i Hi. specialize (Hall i ltac:(lia)).
      destruct i as [|i]; [lia | exact Hall].
Qed.

(** Inversion of a successful [let!] chain. *)
Ltac bind_inv H :=
  repeat match type of H with
  | bind ?m _ = _ =>
      let E := fresh "E" in
      destruct m eqn:E; cbn [bind] in H; [|discriminate H]
  end.

Lemma js_set_fresh (kvs : list (string * val)) (k : string) (v : val) :
  ~ In k (map fst kvs) -> js_set kvs k v = (kvs ++ [(k, v)])%list.
Proof.
  induction kvs as [|[k' w] t IH]; simpl; intros H; auto.
  destruct (String.eqb k' k) eqn:E.
  - apply String.eqb_eq in E. exfalso. apply H. left. exact E.
  - rewrite IH; auto.
Qed.

Lemma key_ok_fresh (used : list string) (n k : string) :
  key_ok used n k -> ~ In k used.
Proof. intros [[H ->] | [_ [j [_ [-> [H _]]]]]]; auto. Qed.

Lemma NoDup_snoc {A} (l : list A) (x : A) :
  NoDup l -> ~ In x l -> NoDup (l ++ [x]).
Proof.
  induction l as [|a l IH]; simpl; intros Hnd Hx.
  - constructor; [intros [] | constructor].
  - inversion Hnd; subst. constructor.
    + rewrite in_app_iff. intros [H|[H|[]]]; [contradiction|]. subst. auto.
    + apply IH; auto.
Qed.

Lemma keys_ok_nodup (names : list string) :
  forall used keys, NoDup used -> keys_ok used names keys ->
  NoDup (used ++ keys) /\ List.length keys = List.length names.
Proof.
  induction names as [|n ns IH]; intros used [|k ks] Hnd H; simpl in H;
    try contradiction.
  - rewrite app_nil_r. auto.
  - destruct H as [Hk Hks].
    destruct (IH (used ++ [k])%list ks) as [H1 H2]; auto.
    + apply NoDup_snoc; auto. apply (key_ok_fresh _ n); auto.
    + rewrite <- app_assoc in H1. simpl. auto.
Qed.

Lemma node_loop (ns : list val) : forall st st' used,
  Forall has_string_name ns ->
  existingDataframeKeys st = map VStr used ->
  map fst (dataframe st) = used ->
  fold_res node_step ns st = Ok st' ->
  exists ks, existingDataframeKeys st' = map VStr (used ++ ks) /\
             map fst (dataframe st') = (used ++ ks)%list /\
             keys_ok used (map node_name ns) ks.
Proof.
  induction ns as [|node ns IH]; intros st st' used Hf Hex Hdf H;
    cbn [fold_res] in H.
  - injection H as <-. exists []. rewrite !app_nil_r. simpl. auto.
  - apply Forall_cons_iff in Hf as [[s Hs] Hf'].
    destruct (node_step st node) as [st1|e] eqn:E1; cbn [bind] in H;
      [|discriminate H].
    unfold node_step in E1. bind_inv E1.
    injection Hs as ->.
    rewrite Hex in E1.
    destruct (generateUniqueKey_spec s used) as [k [Hk Hok]].
    rewrite Hk in E1. injection E1 as <-.
    apply (IH _ _ (used ++ [k])%list Hf') in H as [ks [H1 [H2 H3]]].
    + exists (k :: ks). rewrite <- app_assoc in H1, H2. simpl.
      unfold node_name, get_opt. rewrite E2. auto.
    + simpl. rewrite map_app. reflexivity.
    + simpl. rewrite js_set_fresh.
      * rewrite map_app, Hdf. reflexivity.
      * rewrite Hdf. apply (key_ok_fresh _ s); auto.
Qed.

(** [C7]. For a graph whose [nodes] are nodes with string names, when
    [mergeOperation] returns, the dataframe has one entry per node and
    pairwise distinct keys (so no entry is overwritten), and the key of each
    node, in node order, is its name when no earlier node took that key, and
    otherwise [name_j] for the least [j >= 1] such that [name_j] is not among
    the earlier keys. *)
Theorem C7_dataframe_keys_unique (kvs : list (string * val)) (ns : list val)
    (p : list (string * val)) (m g' : val) :
  lookup_v kvs "nodes" = Some (VArr ns p) ->
  Forall has_string_name ns ->
  mergeOperation (VObj kvs) = Ok (m, g') ->
  exists df, get m "dataframe" = Ok (VObj df) /\
             keys_ok [] (map node_name ns) (map fst df) /\
             NoDup (map fst df) /\ List.length df = List.length ns.
Proof.
  intros Hn Hf H. unfold mergeOperation in H. cbn [truthy negb get] in H.
  rewrite Hn in H. cbn [bind truthy iter] in H. bind_inv H.
  injection H as <- _.
  match goal with E : fold_res node_step ns ?st0 = Ok ?st |- _ =>
    destruct (node_loop ns st0 st [] Hf eq_refl eq_refl E) as [ks [_ [Hdf Hok]]];
    exists (dataframe st)
  end.
  simpl in Hdf. rewrite Hdf.
  destruct (keys_ok_nodup _ [] ks (NoDup_nil _) Hok) as [Hnd Hlen].
  simpl in Hnd. repeat split; auto.
  rewrite <- (length_map fst), Hdf, Hlen, length_map. reflexivity.
Qed.

(** Two nodes named [orders] get the keys [orders] and [orders_1]. *)
Lemma C7_dataframe_keys_unique_witness :
  exists m g' df,
    mergeOperation orders_graph = Ok (m, g') /\
    get m "dataframe" = Ok (VObj df) /\
    keys_ok [] ["orders"; "orders"] (map fst df) /\
    NoDup (map fst df) /\ List.length df = 2 /\
    map fst df = ["orders"; "orders_1"].
Proof.
  let r := eval vm_compute in (mergeOperation orders_graph) in
  let g := eval cbv beta delta [orders_graph graph_of] in orders_graph in
  match r with Ok (?m, ?g') => match g with VObj ?kvs =>
    assert (E : mergeOperation (VObj kvs) = Ok (m, g')) by (vm_compute; reflexivity);
    destruct (C7_dataframe_keys_unique kvs
                [node_of "1" "orders" (VArr [column "a" "int"] []);
                 node_of "2" "orders" (VArr [column "b" "int"] [])] [] m g'
                eq_refl
                ltac:(repeat constructor; eexists; reflexivity) E)
      as [df [H1 [H2 [H3 H4]]]];
    exists m, g', df
  end end.
  cbv in H1. injection H1 as <-.
  split; [exact E|]. split; [reflexivity|]. split; [exact H2|].
  split; [exact H3|]. split; reflexivity.
Defined.

(** ** Edge keys: distinct tuples have distinct keys *)

Lemma string_app_assoc (a b c : string) : (a ++ b) ++ c = a ++ (b ++ c).
Proof. induction a; simpl; congruence. Qed.

Lemma string_app_inj_r (s1 s2 t : string) : s1 ++ t = s2 ++ t -> s1 = s2.
Proof.
  revert s2. induction s1 as [|c s1 IH]; intros [|c' s2] H; simpl in H; auto.
  - apply (f_equal String.length) in H. simpl in H.
    rewrite string_length_app in H. lia.
  - apply (f_equal String.length) in H. simpl in H.
    rewrite string_length_app in H. lia.
  - injection H as -> H. f_equal. auto.
Qed.

Lemma unescape_escape_char (c : ascii) (x : string) :
  unescape_char (escape_char c ++ x) = Some (c, x).
Proof.
  destruct c as [[] [] [] [] [] [] [] []]; reflexivity.
Qed.

Lemma escape_char_inj (c1 c2 : ascii) (x1 x2 : string) :
  escape_char c1 ++ x1 = escape_char c2 ++ x2 -> c1 = c2 /\ x1 = x2.
Proof.
  intros H. apply (f_equal unescape_char) in H.
  rewrite !unescape_escape_char in H. injection H as -> ->. auto.
Qed.

Lemma escape_app (c : ascii) (t r : string) :
  escape (String c t) ++ r = escape_char c ++ (escape t ++ r).
Proof. simpl. apply string_app_assoc. Qed.

Lemma escape_prefix (s1 s2 r1 r2 : string) :
  escape s1 ++ String dq r1 = escape s2 ++ String dq r2 -> s1 = s2 /\ r1 = r2.
Proof.
  revert s2. induction s1 as [|c1 t1 IH]; intros [|c2 t2] H.
  - simpl in H. injection H as ->. auto.
  - rewrite escape_app in H. simpl in H.
    apply (f_equal unescape_char) in H.
    rewrite unescape_escape_char in H. discriminate H.
  - rewrite escape_app in H. simpl in H.
    apply (f_equal unescape_char) in H.
    rewrite unescape_escape_char in H. discriminate H.
  - rewrite !escape_app in H. apply escape_char_inj in H as [-> H].
    apply IH in H as [-> ->]. auto.
Qed.

Lemma quote_app (s r : string) :
  quote s ++ r = String dq (escape s ++ String dq r).
Proof. unfold quote. simpl. rewrite string_app_assoc. reflexivity. Qed.

Lemma show_Z_inj (a b : Z) : show_Z a = show_Z b -> a = b.
Proof.
  unfold show_Z. intros H.
  apply (f_equal NilEmpty.int_of_string) in H. rewrite !NilEmpty.isi in H.
  injection H as H.
  rewrite <- (DecimalZ.of_to a), <- (DecimalZ.of_to b), H. reflexivity.
Qed.

Lemma show_Z_not_null (a : Z) : show_Z a <> "null".
Proof.
  unfold show_Z. intros H.
  apply (f_equal NilEmpty.int_of_string) in H. rewrite NilEmpty.isi in H.
  discriminate H.
Qed.

Lemma tuple_key_shape (o s t f : string) (l : option Z) :
  tuple_key (o, s, t, f, l) =
  String "[" (String dq (escape o ++ String dq (String ","
    (String dq (escape s ++ String dq (String ","
    (String dq (escape t ++ String dq (String ","
    (String dq (escape f ++ String dq (String "," (line_str l ++ "]"))))))))))))).
Proof.
  destruct l; unfold tuple_key, edge_key; cbn [stringify String.concat map];
    unfold quote, char_str; repeat (simpl; rewrite ?string_app_assoc);
    reflexivity.
Qed.

Lemma tuple_key_inj (a b : tuple) : tuple_key a = tuple_key b -> a = b.
Proof.
  destruct a as [[[[o s] t] f] l], b as [[[[o' s'] t'] f'] l'].
  rewrite !tuple_key_shape. intros H. injection H as H.
  apply escape_prefix in H as [-> H]. injection H as H.
  apply escape_prefix in H as [-> H]. injection H as H.
  apply escape_prefix in H as [-> H]. injection H as H.
  apply escape_prefix in H as [-> H]. injection H as H.
  apply string_app_inj_r in H.
  destruct l as [n|], l' as [n'|]; simpl in H.
  - apply show_Z_inj in H. subst. reflexivity.
  - apply show_Z_not_null in H. contradiction.
  - symmetry in H. apply show_Z_not_null in H. contradiction.
  - reflexivity.
Qed.

(** ** The edge loop groups edges by tuple *)

Lemma tuple_eqb_eq (a b : tuple) : tuple_eqb a b = true <-> a = b.
Proof.
  destruct a as [[[[o s] t] f] l], b as [[[[o' s'] t'] f'] l']. simpl.
  rewrite !Bool.andb_true_iff, !String.eqb_eq.
  destruct l as [n|], l' as [n'|]; rewrite ?Z.eqb_eq; split;
    intros H; repeat match goal with H : _ /\ _ |- _ => destruct H end;
    try discriminate; try (injection H; intros); subst; auto; try discriminate.
Qed.

Lemma tuple_key_eqb (a b : tuple) :
  String.eqb (tuple_key a) (tuple_key b) = tuple_eqb a b.
Proof.
  destruct (String.eqb_spec (tuple_key a) (tuple_key b)) as [H|H].
  - apply tuple_key_inj in H. subst. symmetry. apply tuple_eqb_eq. reflexivity.
  - destruct (tuple_eqb a b) eqn:E; auto.
    apply tuple_eqb_eq in E. subst. contradiction.
Qed.

Lemma encode_groups_cons (tg : tuple * list val) (r : list (tuple * list val)) :
  encode_groups (tg :: r) =
  (tuple_key (fst tg), merged_of_group (snd tg)) :: encode_groups r.
Proof. reflexivity. Qed.

Lemma lookup_encode (gs : list (tuple * list val)) (t : tuple) :
  lookup_v (encode_groups gs) (tuple_key t) =
  option_map (fun tg => merged_of_group (snd tg))
    (find (fun tg => tuple_eqb (fst tg) t) gs).
Proof.
  induction gs as [|[t' g] r IH]; simpl; auto.
  rewrite tuple_key_eqb. destruct (tuple_eqb t' t); auto.
Qed.

Lemma js_set_encode (gs : list (tuple * list val)) (t : tuple) (e : val) :
  js_set (encode_groups gs) (tuple_key t)
    (match find (fun tg => tuple_eqb (fst tg) t) gs with
     | Some tg => merged_of_group (snd tg ++ [e])
     | None => merged_of_group [e]
     end) = encode_groups (group_add t e gs).
Proof.
  induction gs as [|[t' g] r IH]; [reflexivity|].
  rewrite encode_groups_cons. cbn [js_set find group_add fst snd].
  rewrite tuple_key_eqb. destruct (tuple_eqb t' t).
  - reflexivity.
  - rewrite IH. reflexivity.
Qed.

Lemma push_columns_group (g : list val) (e : val) :
  g <> [] ->
  push_columns (merged_of_group g) (get_opt e "source_column")
    (get_opt e "target_column") = Ok (merged_of_group (g ++ [e])).
Proof.
  destruct g as [|e0 g]; [contradiction|]. intros _.
  simpl. rewrite !map_app. reflexivity.
Qed.

Lemma get_get_opt (v : val) (k : string) :
  get_opt v k <> VUndef -> get v k = Ok (get_opt v k).
Proof. unfold get_opt. destruct (get v k); auto. intros H; contradiction. Qed.

Lemma get_obj (kvs : list (string * val)) (k : string) :
  get (VObj kvs) k = Ok (get_opt (VObj kvs) k).
Proof. reflexivity. Qed.

Lemma edge_tuple_fields (e : val) (o s t f : string) (l : option Z) :
  edge_tuple e = Some (o, s, t, f, l) ->
  get_opt e "operation" = VStr o /\ get_opt e "source_entity" = VStr s /\
  get_opt e "target_entity" = VStr t /\
  get_opt (get_opt e "code_info") "file_path" = VStr f /\
  get_opt (get_opt e "code_info") "lineno" =
    match l with Some n => VNum n | None => VNull end.
Proof.
  unfold edge_tuple, str_field, line_field.
  repeat match goal with |- context [match get_opt ?v ?k with _ => _ end] =>
    destruct (get_opt v k) end; intros H; try discriminate H;
  injection H as <- <- <- <- <-; auto.
Qed.

Lemma with_code_info_obj (kvs : list (string * val)) :
  exists kvs', with_code_info (VObj kvs) = VObj kvs'.
Proof. unfold with_code_info. destruct (truthy _); eauto. Qed.

Lemma merged_of_group_truthy (g : list val) :
  g <> [] -> truthy (merged_of_group g) = true.
Proof. destruct g; [contradiction | reflexivity]. Qed.

Lemma edge_step_group (st st' : edge_state) (gs : list (tuple * list val))
    (e : val) :
  wf_edge e ->
  Forall (fun tg => snd tg <> []) gs ->
  mergedOperation st = encode_groups gs ->
  edge_step st e = Ok st' ->
  mergedOperation st' =
    encode_groups (group_add (tuple_of (with_code_info e)) (with_code_info e) gs) /\
  edges_after st' = (edges_after st ++ [with_code_info e])%list.
Proof.
  intros [[kvs ->] Ht] Hne Hst H.
  unfold edge_step in H. cbn [get bind] in H.
  match type of H with context [bind (if ?c then ?a else ?b) _] =>
    assert (Hif : (if c then a else b) = Ok (with_code_info (VObj kvs)))
      by (unfold with_code_info, get_opt; cbn [get];
          destruct c; reflexivity)
  end.
  rewrite Hif in H. cbn [bind] in H. clear Hif.
  destruct (with_code_info_obj kvs) as [kvs' Hw]. rewrite Hw in Ht, H |- *.
  destruct (edge_tuple (VObj kvs')) as [[[[[o s] t] f] l]|] eqn:Et;
    [|contradiction].
  destruct (edge_tuple_fields _ _ _ _ _ _ Et) as [Ho [Hs [Htg [Hf Hl]]]].
  rewrite !get_obj in H. cbn [bind] in H.
  rewrite (get_get_opt _ "file_path") in H by (rewrite Hf; discriminate).
  rewrite (get_get_opt _ "lineno") in H by (rewrite Hl; destruct l; discriminate).
  cbn [bind] in H. rewrite Ho, Hs, Htg, Hf, Hl in H.
  replace (edge_key (VStr o) (VStr s) (VStr t) (VStr f)
             (match l with Some n => VNum n | None => VNull end))
    with (tuple_key (o, s, t, f, l)) in H by reflexivity.
  unfold tuple_of. rewrite Et.
  pose proof (js_set_encode gs (o, s, t, f, l) (VObj kvs')) as J.
  rewrite Hst, lookup_encode in H.
  destruct (find (fun tg => tuple_eqb (fst tg) (o, s, t, f, l)) gs)
    as [[t' g]|] eqn:Ef.
  - cbn [option_map snd] in H.
    assert (Hg : g <> []).
    { apply find_some in Ef as [Hin _].
      rewrite Forall_forall in Hne. exact (Hne _ Hin). }
    rewrite merged_of_group_truthy in H by exact Hg. cbn [negb] in H.
    rewrite push_columns_group in H by exact Hg. cbn [bind] in H.
    injection H as <-. cbn [snd] in J. rewrite <- J. split; reflexivity.
  - cbn [option_map truthy negb] in H.
    injection H as <-. cbn [merged_of_group map] in J.
    rewrite Ho, Hs, Htg in J. rewrite <- J. split; reflexivity.
Qed.

(** Groups are non-empty and hold typed edges. *)
Lemma group_add_ok (t : tuple) (e : val) (gs : list (tuple * list val)) :
  edge_tuple e <> None ->
  Forall (fun tg => snd tg <> [] /\ Forall (fun x => edge_tuple x <> None) (snd tg)) gs ->
  Forall (fun tg => snd tg <> [] /\ Forall (fun x => edge_tuple x <> None) (snd tg))
    (group_add t e gs).
Proof.
  intros He. induction gs as [|[t' g] r IH]; intros H; simpl.
  - constructor; [split; [discriminate | constructor; auto] | constructor].
  - inversion H as [|? ? [Hg Hf] Hr]; subst.
    destruct (tuple_eqb t' t); constructor; auto.
    split.
    + destruct g; [contradiction | discriminate].
    + apply Forall_app. split; auto.
Qed.

Lemma with_code_info_typed (e : val) :
  wf_edge e -> edge_tuple (with_code_info e) <> None.
Proof. intros [_ H]. exact H. Qed.

Lemma edge_loop (es : list val) : forall st st' gs,
  Forall wf_edge es ->
  Forall (fun tg => snd tg <> [] /\ Forall (fun x => edge_tuple x <> None) (snd tg)) gs ->
  mergedOperation st = encode_groups gs ->
  fold_res edge_step es st = Ok st' ->
  mergedOperation st' =
    encode_groups (fold_left (fun gs e => group_add (tuple_of e) e gs)
                             (map with_code_info es) gs) /\
  edges_after st' = (edges_after st ++ map with_code_info es)%list.
Proof.
  induction es as [|e es IH]; intros st st' gs Hw Hg Hst H; cbn [fold_res] in H.
  - injection H as <-. simpl. rewrite app_nil_r. auto.
  - apply Forall_cons_iff in Hw as [He Hw].
    destruct (edge_step st e) as [st1|msg] eqn:E1; cbn [bind] in H;
      [|discriminate H].
    destruct (edge_step_group st st1 gs e He) as [H1 H2]; auto.
    { eapply Forall_impl; [|exact Hg]. intros tg [? ?]. auto. }
    destruct (IH st1 st' _ Hw (group_add_ok _ _ _ (with_code_info_typed e He) Hg) H1 H)
      as [H3 H4].
    split.
    + exact H3.
    + rewrite H4, H2, <- app_assoc. reflexivity.
Qed.

Lemma op_loop (dict : list (string * val)) (vals : list val) :
  forall st st' used,
  Forall (fun v => exists kvs, v = VObj kvs) vals ->
  existingOperationKeys st = map VStr used ->
  map fst (operation st) = used ->
  fold_res (op_step dict) vals st = Ok st' ->
  exists ks,
    map fst (operation st') = (used ++ ks)%list /\
    map snd (operation st') = (map snd (operation st) ++ map without_names vals)%list /\
    keys_ok used
      (map (fun v => to_str (entity_name dict (get_opt v "source_entity")) ++ "-" ++
                     to_str (entity_name dict (get_opt v "target_entity"))) vals) ks.
Proof.
  induction vals as [|v vals IH]; intros st st' used Hv Hex Hop H;
    cbn [fold_res] in H.
  - injection H as <-. exists []. rewrite !app_nil_r. simpl. auto.
  - apply Forall_cons_iff in Hv as [[kvs ->] Hv].
    destruct (op_step dict st (VObj kvs)) as [st1|msg] eqn:E1; cbn [bind] in H;
      [|discriminate H].
    unfold op_step in E1. rewrite !get_obj in E1. cbn [bind] in E1.
    rewrite Hex in E1.
    match type of E1 with context [generateUniqueKey (VStr ?b) _] =>
      destruct (generateUniqueKey_spec b used) as [k [Hk Hok]]
    end.
    rewrite Hk in E1. injection E1 as <-.
    apply (IH _ _ (used ++ [k])%list Hv) in H as [ks [H1 [H2 H3]]].
    + exists (k :: ks). rewrite <- app_assoc in H1. simpl in H2 |- *.
      rewrite js_set_fresh in H2 by (rewrite Hop; apply (key_ok_fresh _ _ _ Hok)).
      rewrite map_app, <- app_assoc in H2. simpl in H2.
      split; [exact H1|]. split; [exact H2|]. split; [exact Hok | exact H3].
    + simpl. rewrite map_app. reflexivity.
    + simpl. rewrite js_set_fresh.
      * rewrite map_app, Hop. reflexivity.
      * rewrite Hop. apply (key_ok_fresh _ _ _ Hok).
Qed.

Lemma without_names_merged (g : list val) :
  g <> [] -> without_names (merged_of_group g) = merged_of_group g.
Proof. destruct g; [contradiction | reflexivity]. Qed.

Lemma map_snd_encode (gs : list (tuple * list val)) :
  map snd (encode_groups gs) = map (fun tg => merged_of_group (snd tg)) gs.
Proof. unfold encode_groups. rewrite map_map. reflexivity. Qed.

Lemma group_edges_ok (es : list val) : forall gs,
  Forall (fun e => edge_tuple e <> None) es ->
  Forall (fun tg => snd tg <> [] /\ Forall (fun x => edge_tuple x <> None) (snd tg)) gs ->
  Forall (fun tg => snd tg <> [] /\ Forall (fun x => edge_tuple x <> None) (snd tg))
    (fold_left (fun gs e => group_add (tuple_of e) e gs) es gs).
Proof.
  induction es as [|e es IH]; intros gs He Hg; simpl; auto.
  apply Forall_cons_iff in He as [He1 He]. apply IH; auto.
  apply group_add_ok; auto.
Qed.

Lemma group_edges_typed (es : list val) :
  Forall wf_edge es ->
  Forall (fun tg => snd tg <> [] /\ Forall (fun x => edge_tuple x <> None) (snd tg))
    (group_edges (map with_code_info es)).
Proof.
  intros Hw. apply group_edges_ok; [|constructor].
  apply Forall_map. eapply Forall_impl; [|exact Hw]. apply with_code_info_typed.
Qed.

Lemma merged_values_obj (gs : list (tuple * list val)) :
  Forall (fun tg => snd tg <> [] /\ Forall (fun x => edge_tuple x <> None) (snd tg)) gs ->
  Forall (fun v => exists kvs, v = VObj kvs)
    (map (fun tg => merged_of_group (snd tg)) gs).
Proof.
  intros H. apply Forall_map. eapply Forall_impl; [|exact H].
  intros [t [|e g]] [Hne _]; [contradiction | eexists; reflexivity].
Qed.

(** [C5]. For a graph whose [edges] are typed edges, when [mergeOperation]
    returns, the operation entries are, in order, the merged entries of the
    groups of edges with equal tuples [(operation, source_entity,
    target_entity, code_info.file_path, code_info.lineno)], a missing
    [code_info] being first replaced by the empty record; groups come in
    order of first occurrence, the columns of a group list those of its edges
    in encounter order, and every other field comes from its first edge. *)
Theorem C5_edges_grouped_by_tuple (kvs : list (string * val)) (es : list val)
    (p : list (string * val)) (m g' : val) :
  lookup_v kvs "edges" = Some (VArr es p) ->
  Forall wf_edge es ->
  mergeOperation (VObj kvs) = Ok (m, g') ->
  exists ops, get m "operation" = Ok (VObj ops) /\
    map snd ops = map (fun tg => merged_of_group (snd tg))
                      (group_edges (map with_code_info es)).
Proof.
  intros He Hw H. unfold mergeOperation in H. cbn [truthy negb get] in H.
  rewrite He in H. cbn [bind truthy iter] in H. bind_inv H.
  injection H as <- _.
  pose proof (group_edges_typed es Hw) as Hg.
  match goal with
  | E : fold_res edge_step es ?s0 = Ok ?s1 |- _ =>
      destruct (edge_loop es s0 s1 [] Hw (Forall_nil _) eq_refl E) as [Hm _]
  end.
  match goal with
  | E : fold_res (op_step ?d) ?vs ?o0 = Ok ?o1 |- _ =>
      rewrite Hm, map_snd_encode in E;
      destruct (op_loop d _ o0 o1 [] (merged_values_obj _ Hg) eq_refl eq_refl E)
        as [ks [_ [Hs _]]];
      exists (operation o1)
  end.
  split; [reflexivity|]. rewrite Hs. simpl.
  rewrite map_map. apply map_ext_in. intros [t g] Hin.
  apply without_names_merged. rewrite Forall_forall in Hg.
  destruct (Hg _ Hin). auto.
Qed.

(** ** Operation keys *)

Lemma lookup_js_set (kvs : list (string * val)) (k k' : string) (v : val) :
  lookup_v (js_set kvs k v) k' =
  if String.eqb k k' then Some v else lookup_v kvs k'.
Proof.
  induction kvs as [|[k0 w] t IH]; simpl.
  - destruct (String.eqb k k'); reflexivity.
  - destruct (String.eqb k0 k) eqn:E0; simpl.
    + apply String.eqb_eq in E0. subst k0. destruct (String.eqb k k'); reflexivity.
    + rewrite IH. destruct (String.eqb k0 k') eqn:E1; auto.
      apply String.eqb_eq in E1. subst k0.
      rewrite String.eqb_sym, E0. reflexivity.
Qed.

Lemma node_loop_dict (ns : list val) : forall st st',
  Forall has_string_name ns ->
  fold_res node_step ns st = Ok st' ->
  forall k, lookup_v (entityDict st') k =
    fold_left (fun acc n => if String.eqb (to_str (get_opt n "id")) k
                            then Some (VStr (node_name n)) else acc)
              ns (lookup_v (entityDict st) k).
Proof.
  induction ns as [|node ns IH]; intros st st' Hf H k; cbn [fold_res] in H.
  - injection H as <-. reflexivity.
  - apply Forall_cons_iff in Hf as [[s Hs] Hf].
    destruct (node_step st node) as [st1|e] eqn:E1; cbn [bind] in H;
      [|discriminate H].
    rewrite (IH st1 st' Hf H k). simpl. f_equal.
    unfold node_step in E1. bind_inv E1.
    injection Hs as ->. injection E1 as <-. simpl.
    rewrite lookup_js_set. unfold node_name, get_opt.
    match goal with
    | Hn : get node "name" = Ok _, Hi : get node "id" = Ok _ |- _ =>
        rewrite Hn, Hi
    end.
    destruct (String.eqb _ k); reflexivity.
Qed.

Lemma fold_recorded (ns : list val) (k : string) : forall a,
  fold_left (fun acc n => if String.eqb (to_str (get_opt n "id")) k
                          then Some (VStr (node_name n)) else acc)
            ns (option_map VStr a) =
  option_map VStr
    (fold_left (fun acc n => if String.eqb (to_str (get_opt n "id")) k
                             then Some (node_name n) else acc) ns a).
Proof.
  induction ns as [|n ns IH]; intros a; simpl; auto.
  destruct (String.eqb _ k).
  - apply (IH (Some (node_name n))).
  - apply IH.
Qed.

Lemma entity_name_label (dict : list (string * val)) (ns : list val) (s : string) :
  lookup_v dict s = option_map VStr (recorded_name ns s) ->
  entity_name dict (VStr s) = VStr (name_label ns s).
Proof.
  intros H. unfold entity_name, name_label. simpl. rewrite H.
  destruct (recorded_name ns s) as [x|]; simpl; auto.
  destruct (String.eqb x ""); reflexivity.
Qed.

Lemma merged_base (dict : list (string * val)) (ns : list val) (g : list val) :
  (forall s, lookup_v dict s = option_map VStr (recorded_name ns s)) ->
  g <> [] -> Forall (fun x => edge_tuple x <> None) g ->
  to_str (entity_name dict (get_opt (merged_of_group g) "source_entity")) ++ "-" ++
  to_str (entity_name dict (get_opt (merged_of_group g) "target_entity")) =
  op_base ns g.
Proof.
  intros Hd Hne Hg. destruct g as [|e g]; [contradiction|].
  apply Forall_cons_iff in Hg as [He _].
  destruct (edge_tuple e) as [[[[[o s] t] f] l]|] eqn:Et; [|contradiction].
  destruct (edge_tuple_fields _ _ _ _ _ _ Et) as [_ [Hs [Ht _]]].
  change (get_opt (merged_of_group (e :: g)) "source_entity")
    with (get_opt e "source_entity").
  change (get_opt (merged_of_group (e :: g)) "target_entity")
    with (get_opt e "target_entity").
  unfold op_base, entity_of, str_field. rewrite Hs, Ht.
  rewrite !(entity_name_label dict ns) by apply Hd. reflexivity.
Qed.

(** [C8] (amended). For a graph of typed nodes and typed edges, when
    [mergeOperation] returns, the operation keys are pairwise distinct and
    are, in order, the keys given to the groups' base keys
    [sourceName-targetName] with the [_1], [_2], ... suffixing of
    [generateUniqueKey]; a name is the one the node table records for the
    id (that of the last node with this id) when it is non-empty, and
    ["unknown"] when the id is not in the table or its recorded name is
    empty. *)
Theorem C8_operation_keys (kvs : list (string * val)) (ns es : list val)
    (pn pe : list (string * val)) (m g' : val) :
  lookup_v kvs "nodes" = Some (VArr ns pn) ->
  lookup_v kvs "edges" = Some (VArr es pe) ->
  Forall has_string_name ns ->
  Forall wf_edge es ->
  mergeOperation (VObj kvs) = Ok (m, g') ->
  exists ops, get m "operation" = Ok (VObj ops) /\
    keys_ok [] (map (fun tg => op_base ns (snd tg))
                    (group_edges (map with_code_info es))) (map fst ops) /\
    NoDup (map fst ops).
Proof.
  intros Hn He Hf Hw H. unfold mergeOperation in H.
  cbn [truthy negb get] in H. rewrite Hn, He in H.
  cbn [bind truthy iter] in H. bind_inv H.
  injection H as <- _.
  pose proof (group_edges_typed es Hw) as Hg.
  match goal with
  | E : fold_res node_step ns ?s0 = Ok ?s1 |- _ =>
      pose proof (node_loop_dict ns s0 s1 Hf E) as Hd; cbn [entityDict] in Hd
  end.
  match goal with
  | E : fold_res edge_step es ?s0 = Ok ?s1 |- _ =>
      destruct (edge_loop es s0 s1 [] Hw (Forall_nil _) eq_refl E) as [Hm _]
  end.
  match goal with
  | E : fold_res (op_step ?d) ?vs ?o0 = Ok ?o1 |- _ =>
      rewrite Hm, map_snd_encode in E;
      destruct (op_loop d _ o0 o1 [] (merged_values_obj _ Hg) eq_refl eq_refl E)
        as [ks [Hk [_ Hok]]];
      exists (operation o1)
  end.
  simpl in Hk. rewrite Hk. split; [reflexivity|].
  rewrite map_map in Hok.
  erewrite map_ext_in in Hok.
  - split; [exact Hok|].
    destruct (keys_ok_nodup _ [] ks (NoDup_nil _) Hok) as [Hnd _]. exact Hnd.
  - intros [t g] Hin. rewrite Forall_forall in Hg. destruct (Hg _ Hin) as [Hne Ht].
    apply merged_base; auto.
    intros s. rewrite Hd. apply (fold_recorded ns s None).
Qed.

(** ** Instances on the samples *)

(** The hypotheses on sample nodes and edges, by evaluation. *)
Ltac typed_edges :=
  repeat (apply Forall_cons;
          [split; [eexists; reflexivity |
                  let Hc := fresh in intro Hc; vm_compute in Hc; discriminate Hc]|]);
  apply Forall_nil.

Ltac typed_nodes :=
  repeat (apply Forall_cons; [eexists; reflexivity|]); apply Forall_nil.

(** The two [join] edges at [a.py] line 10 merge into one entry with two
    source and two target columns, in encounter order. *)
Lemma C5_edges_grouped_by_tuple_witness :
  exists m g' ops,
    mergeOperation join_graph = Ok (m, g') /\
    get m "operation" = Ok (VObj ops) /\
    map snd ops =
      map (fun tg => merged_of_group (snd tg))
        (group_edges (map with_code_info
           [with_info (edge_of "join" "n1" "n2" "a" "x") (code_info_of "a.py" 10);
            with_info (edge_of "join" "n1" "n2" "b" "y") (code_info_of "a.py" 10)])) /\
    map (fun kv => get_opt (snd kv) "source_columns") ops =
      [VArr [VStr "a"; VStr "b"] []] /\
    map (fun kv => get_opt (snd kv) "target_columns") ops =
      [VArr [VStr "x"; VStr "y"] []].
Proof.
  let r := eval vm_compute in (mergeOperation join_graph) in
  let g := eval cbv beta delta [join_graph graph_of] in join_graph in
  match r with Ok (?m, ?g') => match g with VObj ?kvs =>
    assert (E : mergeOperation (VObj kvs) = Ok (m, g')) by (vm_compute; reflexivity);
    destruct (C5_edges_grouped_by_tuple kvs
                [with_info (edge_of "join" "n1" "n2" "a" "x") (code_info_of "a.py" 10);
                 with_info (edge_of "join" "n1" "n2" "b" "y") (code_info_of "a.py" 10)]
                [] m g' eq_refl ltac:(typed_edges) E) as [ops [H1 H2]];
    exists m, g', ops
  end end.
  cbv in H1. injection H1 as <-.
  split; [exact E|]. split; [reflexivity|]. split; [exact H2|].
  split; reflexivity.
Defined.

(** Keys [t1-t2], [t1-t2_1] and [unknown-t2] for [op_keys_graph]. *)
Lemma C8_operation_keys_witness :
  exists m g' ops,
    mergeOperation op_keys_graph = Ok (m, g') /\
    get m "operation" = Ok (VObj ops) /\
    keys_ok [] ["t1-t2"; "t1-t2"; "unknown-t2"] (map fst ops) /\
    NoDup (map fst ops) /\
    map fst ops = ["t1-t2"; "t1-t2_1"; "unknown-t2"].
Proof.
  let r := eval vm_compute in (mergeOperation op_keys_graph) in
  let g := eval cbv beta delta [op_keys_graph graph_of] in op_keys_graph in
  match r with Ok (?m, ?g') => match g with VObj ?kvs =>
    assert (E : mergeOperation (VObj kvs) = Ok (m, g')) by (vm_compute; reflexivity);
    destruct (C8_operation_keys kvs
                [node_of "1" "t1" (VArr [] []); node_of "2" "t2" (VArr [] [])]
                [edge_of "select" "1" "2" "a" "b"; edge_of "join" "1" "2" "a" "b";
                 edge_of "x" "9" "2" "c" "d"]
                [] [] m g' eq_refl eq_refl ltac:(typed_nodes) ltac:(typed_edges) E)
      as [ops [H1 [H2 H3]]];
    exists m, g', ops
  end end.
  cbv in H1. injection H1 as <-.
  split; [exact E|]. split; [reflexivity|]. split; [exact H2|].
  split; [exact H3 | reflexivity].
Defined.

Lemma edge_step_after (st st' : edge_state) (kvs : list (string * val)) :
  edge_step st (VObj kvs) = Ok st' ->
  edges_after st' = (edges_after st ++ [with_code_info (VObj kvs)])%list.
Proof.
  intros H. unfold edge_step in H. cbn [get bind] in H.
  match type of H with context [bind (if ?c then ?a else ?b) _] =>
    assert (Hif : (if c then a else b) = Ok (with_code_info (VObj kvs)))
      by (unfold with_code_info, get_opt; cbn [get];
          destruct c; reflexivity)
  end.
  rewrite Hif in H. cbn [bind] in H. clear Hif.
  destruct (with_code_info_obj kvs) as [kvs' Hw]. rewrite Hw in H |- *.
  rewrite !get_obj in H. cbn [bind] in H. bind_inv H.
  destruct (negb _) in H.
  - injection H as <-. reflexivity.
  - bind_inv H. injection H as <-. reflexivity.
Qed.

Lemma edge_loop_after (es : list val) : forall st st',
  Forall (fun e => exists ekvs, e = VObj ekvs) es ->
  fold_res edge_step es st = Ok st' ->
  edges_after st' = (edges_after st ++ map with_code_info es)%list.
Proof.
  induction es as [|e es IH]; intros st st' Ho H; cbn [fold_res] in H.
  - injection H as <-. simpl. rewrite app_nil_r. reflexivity.
  - apply Forall_cons_iff in Ho as [[ekvs ->] Ho].
    destruct (edge_step st (VObj ekvs)) as [st1|msg] eqn:E1; cbn [bind] in H;
      [|discriminate H].
    rewrite (IH st1 st' Ho H), (edge_step_after _ _ _ E1), <- app_assoc.
    reflexivity.
Qed.


Lemma xml_loop (entries : list (string * val)) : forall (mr : list (string * val)) rk mr' r',
  fold_res xml_step entries (mr, VObj rk) = Ok (mr', r') ->
  exists rk', r' = VObj rk' /\
    (forall k, str_includes (toLowerCase k) ".xml" = false ->
               lookup_v rk' k = lookup_v rk k) /\
    (forall k, str_includes (toLowerCase k) ".xml" = false ->
               lookup_v mr' k = lookup_v mr k).
Proof.
  induction entries as [|[x j] entries IH]; intros mr rk mr' r' H;
    cbn [fold_res] in H.
  - injection H as <- <-. exists rk. auto.
  - cbn [xml_step] in H.
    destruct (str_includes (toLowerCase x) ".xml") eqn:Ex.
    + destruct (analyzeJob j) as [[mj uj]|msg] eqn:EJ; cbn [bind set] in H;
        [|discriminate H].
      apply IH in H as [rk' [-> [H1 H2]]]. exists rk'.
      split; [reflexivity|]. split.
      * intros k Hk. rewrite H1 by exact Hk. rewrite lookup_js_set.
        destruct (String.eqb_spec x k); [subst; congruence | reflexivity].
      * intros k Hk. rewrite H2 by exact Hk. rewrite lookup_js_set.
        destruct (String.eqb_spec x k); [subst; congruence | reflexivity].
    + cbn [bind] in H. apply IH in H. exact H.
Qed.

End ConvertFacts.

(** * Further properties of the comparison engine *)
Module CompareExtra.
Import Compare CompareSpec CompareFacts.
Lemma look_lookup (r : option json) (path key : string)
    (t : list (string * json)) :
  (fix look (kvs : list (string * json)) : DiffStatus :=
     match kvs with
     | [] => added
     | (k, v) :: t => if String.eqb k key then compareValues_present v r path
                      else look t
     end) t =
  match lookup t key with
  | Some v => compareValues_present v r path
  | None => added
  end.
Proof. induction t as [|[k v] t IH]; simpl; [reflexivity|]. destruct (String.eqb k key); auto. Qed.

Lemma dedup_acc_In (seen l : list string) (x : string) :
  In x (dedup_acc seen l) -> In x l.
Proof.
  revert seen; induction l as [|y l IH]; simpl; intros seen H; [tauto|].
  destruct (includes y seen); [right; eapply IH; eauto|].
  destruct H as [<-|H]; [left; reflexivity | right; eapply IH; eauto].
Qed.

Lemma lookup_keys (kvs : list (string * json)) (k : string) :
  In k (keys kvs) -> exists v, lookup kvs k = Some v.
Proof.
  induction kvs as [|[k' v] t IH]; simpl; [tauto|]. intros [<-|H].
  - rewrite String.eqb_refl. eauto.
  - destruct (String.eqb k' k); eauto.
Qed.

Lemma obj_loop_same (l r : list (string * json)) (p : string) (ks : list string) :
  (forall key, In key ks -> includes key IGNORED_PROPERTIES = false ->
     match lookup l key with
     | Some v => compareValues_present v (lookup r key) (property_path p key)
     | None => added
     end = same) ->
  (fix loop (ks : list string) : DiffStatus :=
    match ks with
    | [] => same
    | key :: ks' =>
        if includes key IGNORED_PROPERTIES then loop ks' else
        if DiffStatus_eqb
            ((fix look (kvs : list (string * json)) : DiffStatus :=
                match kvs with
                | [] => added
                | (k, v) :: t =>
                    if String.eqb k key
                    then compareValues_present v (lookup r key) (property_path p key)
                    else look t
                end) l) same
        then loop ks' else modified
    end) ks = same.
Proof.
  induction ks as [|key ks IH]; intros H; [reflexivity|].
  destruct (includes key IGNORED_PROPERTIES) eqn:Ei.
  - apply IH. intros; apply H; auto. right; assumption.
  - rewrite look_lookup, (H key (or_introl eq_refl) Ei). apply IH.
    intros; apply H; auto. right; assumption.
Qed.

Lemma cv_refl (v : json) (p : string) :
  compareValues_present v (Some v) p = same.
Proof.
  revert p. induction v as [| b | n | s | id xs IH | id kvs IH] using json_ind';
    intros p; simpl.
  - reflexivity.
  - destruct b; reflexivity.
  - rewrite Z.eqb_refl. reflexivity.
  - rewrite String.eqb_refl. reflexivity.
  - rewrite Nat.eqb_refl. simpl. generalize 0. induction xs as [|x xs IHx]; intros i; [reflexivity|].
    apply Forall_cons_iff in IH as [Hx IH]. rewrite Hx. simpl. apply IHx, IH.
  - apply obj_loop_same. intros key Hin _.
    apply dedup_acc_In in Hin. apply in_app_or in Hin.
    assert (Hk : In key (keys kvs)) by tauto.
    destruct (find_then_key kvs key Hk) as (v & Hl & Hv & _).
    rewrite Hl. exact (Forall_snd (P := fun v => forall p, compareValues_present v (Some v) p = same) kvs v IH Hv _).
Qed.

Lemma includes_comparable (ig : list string) (obj : list (string * json))
    (prop : string) :
  includes prop ig = false ->
  includes prop (getComparableProps ig obj) = has_key obj prop.
Proof.
  intros Hp. unfold has_key, getComparableProps.
  destruct (includes prop (keys obj)) eqn:E.
  - apply includes_In. apply filter_In. split; [apply includes_In; exact E|].
    rewrite Hp. reflexivity.
  - apply Bool.not_true_iff_false. intros H. apply includes_In, filter_In in H.
    destruct H as [H _]. apply includes_In in H. congruence.
Qed.

Lemma countMatches_revisions (ig : list string) (a b : json) (c : visited) :
  countMatches_v0 ig a b c = countMatches ig a b c.
Proof.
  revert b c.
  induction a as [| x | n | s | id xs IH | id kvs IH] using json_ind';
    intros b c; destruct b as [| | | | j ys | j kvs2]; try reflexivity.
  - simpl. destruct (has c id); [reflexivity|].
    assert (G : forall (pre suf : list json) acc, xs = (pre ++ suf)%list ->
      (fix loop (xs' : list json) (i : nat) (acc : nat * visited) {struct xs'} :
          nat * visited :=
        match xs' with
        | [] => acc
        | x :: xs'' =>
            let '(matches, c) := acc in
             if i <? Nat.max (Datatypes.length xs) (Datatypes.length ys)
             then
              match nth_error ys i with
              | Some y =>
                  let '(n, c') := countMatches_v0 ig x y c in
                   loop xs'' (S i) (matches + n, c')
              | None => loop xs'' (S i) acc
              end
             else acc
        end) suf (List.length pre) acc =
      array_matches (countMatches ig) ys suf (List.length pre) acc).
    { intros pre suf. revert pre. induction suf as [|y suf IHs];
        intros pre [m c0] E; [reflexivity|].
      assert (Hlt : Nat.ltb (List.length pre)
                      (Nat.max (List.length xs) (List.length ys)) = true).
      { apply Nat.ltb_lt. rewrite E, length_app. simpl. lia. }
      simpl. rewrite Hlt.
      rewrite Forall_forall in IH.
      assert (Hy : In y xs) by (rewrite E; apply in_or_app; right; left; reflexivity).
      replace (S (List.length pre)) with (List.length (pre ++ [y])%list)
        by (rewrite length_app; simpl; lia).
      destruct (nth_error ys (List.length pre)) as [z|].
      + rewrite (IH y Hy). destruct (countMatches ig y z c0) as [n c1].
        apply IHs. rewrite E, <- app_assoc. reflexivity.
      + apply IHs. rewrite E, <- app_assoc. reflexivity. }
    exact (G [] xs _ eq_refl).
  - simpl. destruct (has c id); [reflexivity|].
    apply fold_left_ext_in. intros prop [m c0] Hp.
    assert (Hig : includes prop ig = false).
    { unfold getComparableProps in Hp. apply filter_In in Hp.
      destruct Hp as [_ Hp]. destruct (includes prop ig); [discriminate|reflexivity]. }
    rewrite includes_comparable by exact Hig.
    destruct (has_key kvs2 prop); [|reflexivity]. simpl.
    apply comparable_in_keys in Hp.
    destruct (find_then_key kvs prop Hp) as (v & Hl & Hv & Hf).
    rewrite !Hf.
    destruct (lookup kvs2 prop) as [w|]; [|reflexivity].
    rewrite (Forall_snd (P := fun v => forall b c, countMatches_v0 ig v b c =
                                              countMatches ig v b c) kvs v IH Hv).
    reflexivity.
Qed.

Lemma nodupb_NoDup {A} (eqb : A -> A -> bool) (l : list A) :
  (forall x y, eqb x y = true <-> x = y) ->
  nodupb eqb l = true -> NoDup l.
Proof.
  intros Heq. induction l as [|x t IH]; simpl; intros H; [constructor|].
  apply andb_true_iff in H as [H1 H2]. constructor; [|auto].
  intros Hin. apply negb_true_iff in H1.
  assert (E : existsb (eqb x) t = true).
  { apply existsb_exists. exists x. split; [exact Hin | apply Heq; reflexivity]. }
  congruence.
Qed.

Lemma find_then_nodup {A} (f : json -> A) (d : A) (kvs : list (string * json))
    (k : string) (v : json) :
  NoDup (keys kvs) -> In (k, v) kvs -> find_then f d k kvs = f v.
Proof.
  induction kvs as [|[k' w] t IH]; simpl; [tauto|].
  intros Hnd [E|Hin]; inversion Hnd as [|? ? Hnot Hnd']; subst.
  - injection E as <- <-. rewrite String.eqb_refl. reflexivity.
  - destruct (String.eqb_spec k' k); [|auto].
    subst. exfalso. apply Hnot. apply (in_map fst) in Hin. exact Hin.
Qed.

Lemma fold_props {A} (ig : list string) (kvs : list (string * json))
    (g : A -> string -> A) (h : A -> string * json -> A) (a : A) :
  (forall acc kv, In kv kvs -> includes (fst kv) ig = false ->
     g acc (fst kv) = h acc kv) ->
  fold_left g (getComparableProps ig kvs) a =
  fold_left (fun acc kv => if includes (fst kv) ig then acc else h acc kv) kvs a.
Proof.
  unfold getComparableProps, keys. revert a.
  induction kvs as [|[k v] t IH]; intros a H; simpl; [reflexivity|].
  destruct (includes k ig) eqn:Ei; simpl.
  - apply IH. intros; apply H; auto. right; assumption.
  - pose proof (H a (k, v) (or_introl eq_refl) Ei) as Hk. simpl in Hk.
    rewrite Hk. apply IH.
    intros; apply H; auto. right; assumption.
Qed.

Lemma NoDup_app_disj {A} (l1 l2 : list A) (x : A) :
  NoDup (l1 ++ l2) -> In x l1 -> ~ In x l2.
Proof.
  induction l1 as [|y l1 IH]; simpl; [tauto|].
  intros Hnd [<-|Hin]; inversion Hnd as [|? ? Hnot Hnd']; subst.
  - intros H2. apply Hnot, in_or_app. right; exact H2.
  - apply IH; assumption.
Qed.

Lemma NoDup_app_r {A} (l1 l2 : list A) : NoDup (l1 ++ l2) -> NoDup l2.
Proof.
  induction l1 as [|y l1 IH]; simpl; auto.
  intros Hnd; inversion Hnd; auto.
Qed.

Lemma NoDup_app_l {A} (l1 l2 : list A) : NoDup (l1 ++ l2) -> NoDup l1.
Proof.
  induction l1 as [|y l1 IH]; simpl; intros Hnd; [constructor|].
  inversion Hnd as [|? ? Hnot Hnd']; subst. constructor; auto.
  intros Hin; apply Hnot, in_or_app; left; exact Hin.
Qed.

(** On a tree, [countProperties] counts the primitive values reachable
    through properties that are not ignored. *)
Lemma countProperties_tree (ig : list string) (v : json) :
  NoDup (ids v) -> keys_unique v = true ->
  forall c, (forall i, In i (ids v) -> ~ In i c) ->
  fst (countProperties ig v c) = leaves ig v /\
  (forall i, In i (snd (countProperties ig v c)) -> In i c \/ In i (ids v)).
Proof.
  induction v as [| b | n | s | id xs IH | id kvs IH] using json_ind';
    intros Hnd Hku c Hc; simpl; try (split; [reflexivity | tauto]).
  - assert (Hh : has c id = false).
    { apply Bool.not_true_iff_false. intros H. unfold has in H.
      apply existsb_exists in H as (i & Hi & E). apply Nat.eqb_eq in E. subst i.
      apply (Hc id); [left; reflexivity | exact Hi]. }
    rewrite Hh. simpl in Hnd. inversion Hnd as [|? ? Hnot Hnd']; subst.
    simpl in Hku.
    assert (G : forall l s c0, Forall (fun x => NoDup (ids x) -> keys_unique x = true ->
                 forall c, (forall i, In i (ids x) -> ~ In i c) ->
                 fst (countProperties ig x c) = leaves ig x /\
                 (forall i, In i (snd (countProperties ig x c)) -> In i c \/ In i (ids x))) l ->
      NoDup (flat_map ids l) -> forallb keys_unique l = true ->
      (forall i, In i (flat_map ids l) -> ~ In i c0) ->
      fst (fold_left (fun acc item =>
                   let '(sum, c) := acc in
                   let '(n, c') := countProperties ig item c in (sum + n, c'))
                l (s, c0)) = s + list_sum (map (leaves ig) l) /\
      (forall i, In i (snd (fold_left (fun acc item =>
                   let '(sum, c) := acc in
                   let '(n, c') := countProperties ig item c in (sum + n, c'))
                l (s, c0))) -> In i c0 \/ In i (flat_map ids l))).
    { induction l as [|x l IHl]; intros s c0 HF Hn Hk Hd; simpl.
      - split; [lia | tauto].
      - apply Forall_cons_iff in HF as [Hx HF].
        apply andb_true_iff in Hk as [Hkx Hk].
        simpl in Hn.
        destruct (Hx (NoDup_app_l _ _ Hn) Hkx c0) as [H1 H2].
        { intros i Hi. apply Hd. apply in_or_app. left; exact Hi. }
        destruct (countProperties ig x c0) as [n c1]. simpl in H1, H2. subst n.
        destruct (IHl (s + leaves ig x) c1 HF (NoDup_app_r _ _ Hn) Hk) as [H3 H4].
        { intros i Hi Hi1. destruct (H2 i Hi1) as [Hi0|Hix].
          - apply (Hd i); [apply in_or_app; right; exact Hi | exact Hi0].
          - apply (NoDup_app_disj _ _ i Hn Hix Hi). }
        split; [etransitivity; [exact H3 | lia]|].
        intros i Hi. destruct (H4 i Hi) as [Hi1|Hi1]; [|right; apply in_or_app; right; exact Hi1].
        destruct (H2 i Hi1) as [Hi0|Hix]; [left; exact Hi0|].
        right; apply in_or_app; left; exact Hix. }
    destruct (G xs 0 (id :: c) IH Hnd' Hku) as [H1 H2].
    { intros i Hi [E|Hi0]; [subst; contradiction|]. apply (Hc i); [right; exact Hi | exact Hi0]. }
    split; [exact H1|]. intros i Hi. destruct (H2 i Hi) as [[E|Hi0]|Hi1].
    + right; left; exact E.
    + left; exact Hi0.
    + right; right; exact Hi1.
  - assert (Hh : has c id = false).
    { apply Bool.not_true_iff_false. intros H. unfold has in H.
      apply existsb_exists in H as (i & Hi & E). apply Nat.eqb_eq in E. subst i.
      apply (Hc id); [left; reflexivity | exact Hi]. }
    rewrite Hh. simpl in Hnd. inversion Hnd as [|? ? Hnot Hnd']; subst.
    simpl in Hku. apply andb_true_iff in Hku as [Hkk Hku].
    apply nodupb_NoDup in Hkk; [|intros; apply String.eqb_eq].
    rewrite (fold_props ig kvs _ (fun acc kv =>
                   let '(sum, c) := acc in
                   let '(n, c') := countProperties ig (snd kv) c in (sum + n, c'))).
    2:{ intros [sum c0] [k w] Hin _. simpl.
        rewrite (find_then_nodup _ _ kvs k w Hkk Hin). reflexivity. }
    assert (G : forall l s c0, Forall (fun kv => NoDup (ids (snd kv)) -> keys_unique (snd kv) = true ->
                 forall c, (forall i, In i (ids (snd kv)) -> ~ In i c) ->
                 fst (countProperties ig (snd kv) c) = leaves ig (snd kv) /\
                 (forall i, In i (snd (countProperties ig (snd kv) c)) -> In i c \/ In i (ids (snd kv)))) l ->
      NoDup (flat_map (fun kv => ids (snd kv)) l) ->
      forallb (fun kv => keys_unique (snd kv)) l = true ->
      (forall i, In i (flat_map (fun kv => ids (snd kv)) l) -> ~ In i c0) ->
      fst (fold_left (fun acc kv => if includes (fst kv) ig then acc else
                   let '(sum, c) := acc in
                   let '(n, c') := countProperties ig (snd kv) c in (sum + n, c'))
                l (s, c0)) =
        s + list_sum (map (fun kv => if includes (fst kv) ig then 0
                                     else leaves ig (snd kv)) l) /\
      (forall i, In i (snd (fold_left (fun acc kv => if includes (fst kv) ig then acc else
                   let '(sum, c) := acc in
                   let '(n, c') := countProperties ig (snd kv) c in (sum + n, c'))
                l (s, c0))) -> In i c0 \/ In i (flat_map (fun kv => ids (snd kv)) l))).
    { induction l as [|[k x] l IHl]; intros s c0 HF Hn Hk Hd; simpl.
      - split; [lia | tauto].
      - apply Forall_cons_iff in HF as [Hx HF]. simpl in Hx.
        apply andb_true_iff in Hk as [Hkx Hk].
        simpl in Hn.
        assert (Hd' : forall i, In i (flat_map (fun kv => ids (snd kv)) l) -> ~ In i c0).
        { intros i Hi. apply Hd. apply in_or_app. right; exact Hi. }
        destruct (includes k ig).
        + destruct (IHl s c0 HF (NoDup_app_r _ _ Hn) Hk Hd') as [H3 H4].
          split; [etransitivity; [exact H3 | lia]|].
          intros i Hi. destruct (H4 i Hi) as [Hi1|Hi1]; [left; exact Hi1|].
          right; apply in_or_app; right; exact Hi1.
        + destruct (Hx (NoDup_app_l _ _ Hn) Hkx c0) as [H1 H2].
          { intros i Hi. apply Hd. apply in_or_app. left; exact Hi. }
          destruct (countProperties ig x c0) as [n c1]. simpl in H1, H2. subst n.
          destruct (IHl (s + leaves ig x) c1 HF (NoDup_app_r _ _ Hn) Hk) as [H3 H4].
          { intros i Hi Hi1. destruct (H2 i Hi1) as [Hi0|Hix].
            - apply (Hd i); [apply in_or_app; right; exact Hi | exact Hi0].
            - apply (NoDup_app_disj _ _ i Hn Hix Hi). }
          split; [etransitivity; [exact H3 | lia]|].
          intros i Hi. destruct (H4 i Hi) as [Hi1|Hi1]; [|right; apply in_or_app; right; exact Hi1].
          destruct (H2 i Hi1) as [Hi0|Hix]; [left; exact Hi0|].
          right; apply in_or_app; left; exact Hix. }
    destruct (G kvs 0 (id :: c) IH Hnd' Hku) as [H1 H2].
    { intros i Hi [E|Hi0]; [subst; contradiction|]. apply (Hc i); [right; exact Hi | exact Hi0]. }
    split; [exact H1|]. intros i Hi. destruct (H2 i Hi) as [[E|Hi0]|Hi1].
    + right; left; exact E.
    + left; exact Hi0.
    + right; right; exact Hi1.
Qed.

Lemma array_matches_bound (ig : list string) (ys xs : list json) :
  Forall (fun x => forall y c, fst (countMatches ig x y c) <= leaves ig x) xs ->
  forall i s c0,
  fst (array_matches (countMatches ig) ys xs i (s, c0)) <=
    s + list_sum (map (leaves ig) xs).
Proof.
  induction xs as [|x xs IH]; intros HF i s c0; simpl; [lia|].
  apply Forall_cons_iff in HF as [Hx HF].
  destruct (nth_error ys i) as [y|].
  - specialize (Hx y c0). destruct (countMatches ig x y c0) as [n c1].
    simpl in Hx. specialize (IH HF (S i) (s + n) c1). lia.
  - specialize (IH HF (S i) s c0). lia.
Qed.

(** The number of matches found with [value1] never exceeds the number of
    primitive values reachable in [value1] through properties that are not
    ignored. *)
Lemma countMatches_bound (ig : list string) (v : json) :
  keys_unique v = true ->
  forall w c, fst (countMatches ig v w c) <= leaves ig v.
Proof.
  induction v as [| b | n | s | id xs IH | id kvs IH] using json_ind';
    intros Hku w c; destruct w as [| | | | j ys | j kvs2]; simpl;
    try (destruct (strict_eq _ _); simpl; lia); try lia;
    try (match goal with |- context [if ?b then _ else _] => destruct b end; lia).
  - destruct (has c id); simpl; [lia|].
    simpl in Hku. apply array_matches_bound.
    rewrite Forall_forall in IH |- *. intros x Hx.
    apply IH; [exact Hx|]. rewrite forallb_forall in Hku. apply Hku, Hx.
  - destruct (has c id); simpl; [lia|].
    simpl in Hku. apply andb_true_iff in Hku as [Hkk Hku].
    apply nodupb_NoDup in Hkk; [|intros; apply String.eqb_eq].
    rewrite (fold_props ig kvs _ (fun acc kv =>
                   let '(matches, c) := acc in
                   if negb (has_key kvs2 (fst kv)) then acc else
                   let '(n, c') := match lookup kvs2 (fst kv) with
                                   | Some w => countMatches ig (snd kv) w c
                                   | None => (0, c)
                                   end in
                   (matches + n, c'))).
    2:{ intros [m c0] [k x] Hin _. simpl.
        destruct (has_key kvs2 k); [|reflexivity]. simpl.
        rewrite (find_then_nodup _ _ kvs k x Hkk Hin). reflexivity. }
    assert (G : forall l s c0,
      Forall (fun kv => keys_unique (snd kv) = true ->
                forall w c, fst (countMatches ig (snd kv) w c) <= leaves ig (snd kv)) l ->
      forallb (fun kv => keys_unique (snd kv)) l = true ->
      fst (fold_left (fun acc kv => if includes (fst kv) ig then acc else
                   let '(matches, c) := acc in
                   if negb (has_key kvs2 (fst kv)) then acc else
                   let '(n, c') := match lookup kvs2 (fst kv) with
                                   | Some w => countMatches ig (snd kv) w c
                                   | None => (0, c)
                                   end in
                   (matches + n, c')) l (s, c0)) <=
      s + list_sum (map (fun kv => if includes (fst kv) ig then 0
                                   else leaves ig (snd kv)) l)).
    { induction l as [|[k x] l IHl]; intros s c0 HF Hk; simpl; [lia|].
      apply Forall_cons_iff in HF as [Hx HF]. simpl in Hx.
      apply andb_true_iff in Hk as [Hkx Hk].
      destruct (includes k ig); [specialize (IHl s c0 HF Hk); lia|].
      destruct (has_key kvs2 k); simpl; [|specialize (IHl s c0 HF Hk); lia].
      destruct (lookup kvs2 k) as [y|].
      + pose proof (Hx Hkx y c0) as Hb. destruct (countMatches ig x y c0) as [n c1].
        simpl in Hb. specialize (IHl (s + n) c1 HF Hk). lia.
      + specialize (IHl (s + 0) c0 HF Hk). lia. }
    exact (G kvs 0 (id :: c) IH Hku).
Qed.

Lemma round_bounds (x : Q) : (0 <= x)%Q -> (x <= 10000)%Q ->
  (0 <= inject_Z (math_round x) / 100)%Q /\ (inject_Z (math_round x) / 100 <= 100)%Q.
Proof.
  destruct x as [a b]. unfold Qle. simpl. intros H0 H1.
  unfold math_round, Qfloor, Qplus. simpl.
  assert (Hb : (0 < Z.pos b)%Z) by lia.
  assert (L : (0 <= (a * 2 + Z.pos b) / Z.pos (b * 2))%Z).
  { apply Z.div_pos; lia. }
  assert (U : ((a * 2 + Z.pos b) / Z.pos (b * 2) < 10001)%Z).
  { apply Z.div_lt_upper_bound; [lia|]. rewrite Pos2Z.inj_mul. lia. }
  unfold Qdiv, Qmult, Qinv, Qle. simpl. lia.
Qed.

Lemma result_of_bounds (t m : nat) : m <= t ->
  (0 <= similarityPercentage (result_of t m))%Q /\
  (similarityPercentage (result_of t m) <= 100)%Q.
Proof.
  intros Hmt. unfold result_of. cbv [similarityPercentage].
  destruct (Nat.eqb_spec t 0) as [->|Ht].
  - vm_compute. split; discriminate.
  - apply round_bounds.
    + destruct t as [|t']; [lia|]. unfold nat_to_Q, Qdiv, Qmult, Qinv, Qle.
      cbn [Qnum Qden inject_Z Z.of_nat]. rewrite !Pos2Z.inj_mul. lia.
    + destruct t as [|t']; [lia|]. unfold nat_to_Q, Qdiv, Qmult, Qinv, Qle.
      cbn [Qnum Qden inject_Z Z.of_nat]. rewrite !Pos2Z.inj_mul.
      rewrite Zpos_P_of_succ_nat. lia.
Qed.

(** The visited sets of [compareObjects] make no difference on a document
    as [JSON.parse] builds it: its [totalProperties] is the number of
    primitive values reachable through properties that are not ignored. *)
Theorem compareObjects_total_tree (a b : json) (ig : list string) :
  is_tree a = true ->
  totalProperties (compareObjects a b ig) = leaves ig a.
Proof.
  intros Ht. unfold is_tree in Ht. apply andb_true_iff in Ht as [Hn Hk].
  apply nodupb_NoDup in Hn; [|intros; apply Nat.eqb_eq].
  unfold compareObjects. simpl.
  destruct (countProperties_tree ig a Hn Hk [] (fun i _ H => H)) as [H _].
  exact H.
Qed.

Lemma compareObjects_total_tree_witness :
  is_tree doc_a = true /\
  totalProperties (compareObjects doc_a doc_b IGNORED_PROPERTIES) = 3.
Proof.
  split; [reflexivity|].
  exact (compareObjects_total_tree doc_a doc_b IGNORED_PROPERTIES eq_refl).
Defined.

(** For a left document as [JSON.parse] builds it, both revisions of
    [compareObjects] find at most as many matching properties as they count
    in total, and report a similarity between 0 and 100. *)
Theorem compareObjects_bounded (a b : json) (ig : list string) :
  is_tree a = true ->
  matchingProperties (compareObjects a b ig) <=
    totalProperties (compareObjects a b ig) /\
  (0 <= similarityPercentage (compareObjects a b ig) <= 100)%Q /\
  matchingProperties (compareObjects_v0 a b ig) <=
    totalProperties (compareObjects_v0 a b ig) /\
  (0 <= similarityPercentage (compareObjects_v0 a b ig) <= 100)%Q.
Proof.
  intros Ht. unfold is_tree in Ht. apply andb_true_iff in Ht as [Hn Hk].
  apply nodupb_NoDup in Hn; [|intros; apply Nat.eqb_eq].
  destruct (countProperties_tree ig a Hn Hk [] (fun i _ H => H)) as [Ht _].
  pose proof (countMatches_bound ig a Hk b []) as Hm.
  assert (Hm0 : fst (countMatches_v0 ig a b []) <= leaves ig a)
    by (rewrite countMatches_revisions; exact Hm).
  unfold compareObjects, compareObjects_v0.
  cbv [matchingProperties totalProperties result_of]; fold (result_of).
  set (t := fst (countProperties ig a [])) in *.
  set (t2 := fst (countProperties ig b [])).
  split; [cbn; lia|]. split; [apply result_of_bounds; lia|].
  split; [cbn; lia|]. apply result_of_bounds; lia.
Qed.

Lemma compareObjects_bounded_witness :
  is_tree doc_a = true /\
  matchingProperties (compareObjects doc_a doc_b IGNORED_PROPERTIES) <=
    totalProperties (compareObjects doc_a doc_b IGNORED_PROPERTIES).
Proof.
  split; [reflexivity|].
  exact (proj1 (compareObjects_bounded doc_a doc_b IGNORED_PROPERTIES eq_refl)).
Defined.

(** The two revisions of [compareObjects] find the same number of matching
    properties for all documents ([props2.includes(prop)] and
    [prop in value2] agree on a comparable property, and iterating up to the
    longer array changes nothing); they can only differ through
    [totalProperties], and agree whenever the right document counts no more
    properties than the left one. *)
Theorem compareObjects_revisions_match (a b : json) (ig : list string) :
  matchingProperties (compareObjects_v0 a b ig) =
    matchingProperties (compareObjects a b ig) /\
  (fst (countProperties ig b []) <= fst (countProperties ig a []) ->
   compareObjects_v0 a b ig = compareObjects a b ig).
Proof.
  unfold compareObjects_v0, compareObjects. rewrite countMatches_revisions.
  split; [reflexivity|]. intros H. rewrite Nat.max_l by exact H. reflexivity.
Qed.

Lemma compareObjects_revisions_match_witness :
  fst (countProperties IGNORED_PROPERTIES doc_b []) <=
    fst (countProperties IGNORED_PROPERTIES doc_a []) /\
  compareObjects_v0 doc_a doc_b IGNORED_PROPERTIES =
    compareObjects doc_a doc_b IGNORED_PROPERTIES.
Proof.
  assert (H : fst (countProperties IGNORED_PROPERTIES doc_b []) <=
              fst (countProperties IGNORED_PROPERTIES doc_a [])) by (vm_compute; lia).
  split; [exact H|].
  exact (proj2 (compareObjects_revisions_match doc_a doc_b IGNORED_PROPERTIES) H).
Defined.

(** [compareValues] of part_001 reports [same] for a value compared with
    itself, whatever the value and the path. *)
Theorem compareValues_v1_refl (v : json) (p : string) :
  compareValues_v1 (Some v) (Some v) p = same.
Proof. apply cv_refl. Qed.

(** [compareValues] of part_001 reports [same] for two objects that have the
    same value at every property not in [IGNORED_PROPERTIES]: differences
    in [id], [source_entity], [target_entity], [dropped_columns] or
    [entity_value] are not reported. *)
Theorem compareValues_v1_ignored_only (i j : nat) (l r : list (string * json))
    (p : string) :
  (forall k, includes k IGNORED_PROPERTIES = false -> lookup l k = lookup r k) ->
  compareValues_v1 (Some (JObj i l)) (Some (JObj j r)) p = same.
Proof.
  intros H. unfold compareValues_v1. cbn [compareValues_present].
  apply obj_loop_same. intros key Hin Hig.
  rewrite (H key Hig).
  apply dedup_acc_In, in_app_or in Hin.
  destruct (lookup r key) as [v|] eqn:Hr; [apply cv_refl|].
  exfalso. destruct Hin as [Hin|Hin].
  - destruct (lookup_keys l key Hin) as [w Hw]. rewrite (H key Hig) in Hw. congruence.
  - destruct (lookup_keys r key Hin) as [w Hw]. congruence.
Qed.

Lemma compareValues_v1_ignored_only_witness :
  (forall k, includes k IGNORED_PROPERTIES = false ->
     lookup [("id", JNum 7); ("name", JStr "t")] k =
     lookup [("id", JNum 8); ("name", JStr "t")] k) /\
  compareValues_v1 (Some (JObj 1 [("id", JNum 7); ("name", JStr "t")]))
                   (Some (JObj 2 [("id", JNum 8); ("name", JStr "t")])) "" = same.
Proof.
  assert (H : forall k, includes k IGNORED_PROPERTIES = false ->
     lookup [("id", JNum 7); ("name", JStr "t")] k =
     lookup [("id", JNum 8); ("name", JStr "t")] k).
  { intros k Hk. cbn [lookup]. destruct (String.eqb "id" k) eqn:E; [|reflexivity].
    apply String.eqb_eq in E. subst k. discriminate Hk. }
  split; [exact H|].
  exact (compareValues_v1_ignored_only 1 2 _ _ "" H).
Defined.

(** Two primitive documents are one property in total; the similarity is
    100 when they are strictly equal and 0 otherwise. *)
Theorem compareObjects_primitives (a b : json) (ig : list string) :
  isContainer a = false -> isContainer b = false ->
  totalProperties (compareObjects a b ig) = 1 /\
  matchingProperties (compareObjects a b ig) = (if strict_eq a b then 1 else 0) /\
  (similarityPercentage (compareObjects a b ig) ==
     if strict_eq a b then 100 else 0)%Q.
Proof.
  intros Ha Hb.
  assert (Hc : forall c, countProperties ig a c = (1, c))
    by (destruct a; try discriminate Ha; reflexivity).
  assert (Hm : forall c, countMatches ig a b c =
                         ((if strict_eq a b then 1 else 0), c)).
  { intros c. destruct a; try discriminate Ha; destruct b; try discriminate Hb;
      reflexivity. }
  unfold compareObjects. rewrite Hc, Hm. simpl.
  split; [reflexivity|]. split; [reflexivity|].
  destruct (strict_eq a b); vm_compute; reflexivity.
Qed.

Lemma compareObjects_primitives_witness :
  isContainer (JStr "x") = false /\ isContainer (JStr "y") = false /\
  (similarityPercentage (compareObjects (JStr "x") (JStr "y") []) == 0)%Q.
Proof.
  split; [reflexivity|]. split; [reflexivity|].
  exact (proj2 (proj2 (compareObjects_primitives (JStr "x") (JStr "y") []
                         eq_refl eq_refl))).
Defined.

(** A left object without comparable properties ([{}], or only ignored
    keys) counts no property, matches none, and is reported 100% similar to
    any right document. *)
Theorem compareObjects_no_comparable (id : nat) (kvs : list (string * json))
    (b : json) (ig : list string) :
  getComparableProps ig kvs = [] ->
  totalProperties (compareObjects (JObj id kvs) b ig) = 0 /\
  matchingProperties (compareObjects (JObj id kvs) b ig) = 0 /\
  (similarityPercentage (compareObjects (JObj id kvs) b ig) == 100)%Q.
Proof.
  intros H.
  assert (Hm : fst (countMatches ig (JObj id kvs) b []) = 0).
  { destruct b; simpl; try reflexivity. rewrite H. reflexivity. }
  assert (Hc : fst (countProperties ig (JObj id kvs) []) = 0).
  { simpl. rewrite H. reflexivity. }
  unfold compareObjects. rewrite Hm, Hc. vm_compute.
  split; [reflexivity|]. split; reflexivity.
Qed.

Lemma compareObjects_no_comparable_witness :
  getComparableProps IGNORED_PROPERTIES [("id", JNum 7)] = [] /\
  (similarityPercentage
     (compareObjects (JObj 0 [("id", JNum 7)]) doc_b IGNORED_PROPERTIES) == 100)%Q.
Proof.
  split; [reflexivity|].
  exact (proj2 (proj2 (compareObjects_no_comparable 0 [("id", JNum 7)] doc_b
                         IGNORED_PROPERTIES eq_refl))).
Defined.

(** A path is expanded after the toggle exactly when it was not before. *)
Lemma In_togglePath (s : list string) (p q : string) :
  In q (togglePath s p) <-> (if String.eqb q p then ~ In p s else In q s).
Proof.
  unfold togglePath. destruct (includes p s) eqn:Ei.
  - apply includes_In in Ei. rewrite filter_In.
    destruct (String.eqb q p) eqn:Eq; cbn [negb].
    + split; [intros [_ H]; discriminate H|intros H; contradiction].
    + split; [tauto|intros H; auto].
  - rewrite in_app_iff. cbn [In].
    destruct (String.eqb q p) eqn:Eq.
    + apply String.eqb_eq in Eq. subst. split; [|intros _; right; left; reflexivity].
      intros _ H. apply includes_In in H. congruence.
    + apply String.eqb_neq in Eq. split; [intros [H|[H|[]]]; [exact H|congruence]|auto].
Qed.

(** [togglePath] flips the membership of the toggled path and of no other
    path, so toggling the same path twice restores the set of expanded paths;
    the list stays free of duplicates, as a [Set] is. *)
Theorem togglePath_toggles (s : list string) (p q : string) :
  (In q (togglePath s p) <-> (if String.eqb q p then ~ In p s else In q s)) /\
  (In q (togglePath (togglePath s p) p) <-> In q s) /\
  (NoDup s -> NoDup (togglePath s p)).
Proof.
  split; [apply In_togglePath|split].
  - rewrite In_togglePath. destruct (String.eqb q p) eqn:Eq.
    + apply String.eqb_eq in Eq. subst. rewrite In_togglePath, String.eqb_refl.
      destruct (in_dec String.string_dec p s); tauto.
    + rewrite In_togglePath, Eq. reflexivity.
  - intros H. unfold togglePath. destruct (includes p s) eqn:Ei.
    + apply NoDup_filter. exact H.
    + apply NoDup_app; [exact H|constructor; [intros []|constructor]|].
      intros x Hx [<-|[]]. assert (includes p s = true) by (apply includes_In; exact Hx).
      congruence.
Qed.

End CompareExtra.

(** * Further properties of the normalizer *)
Module ConvertExtra.
Import Convert ConvertSpec ConvertFacts.


Lemma truthy_put_entry (c : val) (k : string) (x : val) :
  truthy (put_entry c k x) = truthy c.
Proof.
  destruct c; simpl; try reflexivity.
  - destruct (index_of_key k 0 xs); [reflexivity|].
    destruct (lookup_v props k); reflexivity.
  - destruct (lookup_v kvs k); reflexivity.
Qed.

Lemma get_put_entry_other (c : val) (k k' : string) (x : val) :
  k <> k' -> get (put_entry c k x) k' = get c k'.
Proof.
  intros Hk. destruct c; simpl; try reflexivity.
  - destruct (index_of_key k 0 xs); [reflexivity|].
    destruct (lookup_v props k); [|reflexivity]. simpl.
    rewrite lookup_js_set. apply String.eqb_neq in Hk. rewrite Hk. reflexivity.
  - destruct (lookup_v kvs k); [|reflexivity]. simpl.
    rewrite lookup_js_set. apply String.eqb_neq in Hk. rewrite Hk. reflexivity.
Qed.

Lemma show_nat_not_edges (i : nat) : show_nat i <> "edges".
Proof.
  unfold show_nat. destruct (Nat.to_uint i); discriminate.
Qed.

Lemma index_of_key_edges (xs : list val) : forall i,
  index_of_key "edges" i xs = None.
Proof.
  induction xs as [|x xs IH]; intros i; simpl; [reflexivity|].
  destruct (String.eqb_spec (show_nat i) "edges") as [E|_];
    [exfalso; exact (show_nat_not_edges i E) | apply IH].
Qed.

Lemma get_put_entry_edges (c : val) (xs : list val) (p : list (string * val))
    (x : val) :
  get c "edges" = Ok (VArr xs p) -> get (put_entry c "edges" x) "edges" = Ok x.
Proof.
  destruct c as [| | | | | ys props | kvs]; simpl; try discriminate.
  - rewrite index_of_key_edges.
    destruct (lookup_v props "edges"); [|discriminate]. intros _. simpl.
    rewrite lookup_js_set, String.eqb_refl. reflexivity.
  - destruct (lookup_v kvs "edges"); [|discriminate]. intros _. simpl.
    rewrite lookup_js_set, String.eqb_refl. reflexivity.
Qed.

Lemma js_set_twice (kvs : list (string * val)) (k : string) (x : val) :
  js_set (js_set kvs k x) k x = js_set kvs k x.
Proof.
  induction kvs as [|[k' w] t IH]; simpl.
  - rewrite String.eqb_refl. reflexivity.
  - destruct (String.eqb k' k) eqn:E; simpl; rewrite E; [reflexivity|].
    rewrite IH. reflexivity.
Qed.

Lemma put_entry_twice_edges (c : val) (x : val) :
  put_entry (put_entry c "edges" x) "edges" x = put_entry c "edges" x.
Proof.
  destruct c as [| | | | | ys props | kvs]; simpl; try reflexivity.
  - rewrite index_of_key_edges.
    destruct (lookup_v props "edges") eqn:E; simpl; rewrite index_of_key_edges.
    + rewrite lookup_js_set, String.eqb_refl, js_set_twice. reflexivity.
    + rewrite E. reflexivity.
  - destruct (lookup_v kvs "edges") eqn:E; simpl.
    + rewrite lookup_js_set, String.eqb_refl, js_set_twice. reflexivity.
    + rewrite E. reflexivity.
Qed.

Lemma get_set_same (v v' : val) (k : string) (x : val) :
  set v k x = Ok v' -> get v' k = Ok x.
Proof.
  destruct v; simpl; try discriminate; intros H; injection H as <-; simpl;
    rewrite lookup_js_set, String.eqb_refl; reflexivity.
Qed.

Lemma edge_step_again (st st' : edge_state) (e : val) :
  edge_step st e = Ok st' ->
  exists e', edges_after st' = (edges_after st ++ [e'])%list /\
             edge_step st e' = Ok st'.
Proof.
  intros H. unfold edge_step in H.
  destruct (get e "code_info") as [ci|] eqn:Eci; cbn [bind] in H; [|discriminate H].
  match type of H with bind (if _ then _ else _) ?K = _ =>
    assert (G : forall e1 ci1, get e1 "code_info" = Ok ci1 -> truthy ci1 = true ->
                  K e1 = Ok st' ->
                  edges_after st' = (edges_after st ++ [e1])%list /\
                  edge_step st e1 = Ok st')
  end.
  { intros e1 ci1 E1 T1 HK. split.
    - cbv beta in HK. bind_inv HK.
      destruct (negb _) in HK.
      + injection HK as <-. reflexivity.
      + bind_inv HK. injection HK as <-. reflexivity.
    - unfold edge_step. rewrite E1. cbn [bind]. rewrite T1. cbn [bind]. exact HK. }
  destruct (truthy ci) eqn:Et.
  - cbn [bind] in H. exists e. exact (G e ci Eci Et H).
  - destruct (set e "code_info" default_code_info) as [e1|] eqn:Es;
      cbn [bind] in H; [|discriminate H].
    exists e1. exact (G e1 default_code_info (get_set_same _ _ _ _ Es) eq_refl H).
Qed.

Lemma edge_fold_again (l : list val) : forall st st',
  fold_res edge_step l st = Ok st' ->
  exists l', edges_after st' = (edges_after st ++ l')%list /\
             fold_res edge_step l' st = Ok st'.
Proof.
  induction l as [|x l IH]; intros st st' H; cbn [fold_res] in H.
  - injection H as <-. exists []. rewrite app_nil_r. split; reflexivity.
  - destruct (edge_step st x) as [st1|] eqn:E1; cbn [bind] in H; [|discriminate H].
    destruct (IH _ _ H) as [l1 [H1 H2]].
    destruct (edge_step_again _ _ _ E1) as [e' [H3 H4]].
    exists (e' :: l1). split.
    + rewrite H1, H3, <- app_assoc. reflexivity.
    + cbn [fold_res]. rewrite H4. cbn [bind]. exact H2.
Qed.

(** Merging the graph that [mergeOperation] leaves behind gives the same
    merged result and leaves that graph unchanged: the default [code_info]
    objects added on the first call are kept, and read back as before. *)
Theorem mergeOperation_idempotent (g m g' : val) :
  mergeOperation g = Ok (m, g') -> mergeOperation g' = Ok (m, g').
Proof.
  intros H. unfold mergeOperation in H.
  destruct (truthy g) eqn:Eg; cbn [negb] in H.
  2:{ injection H as <- <-. unfold mergeOperation. rewrite Eg. reflexivity. }
  destruct (get g "nodes") as [nodes|] eqn:En; cbn [bind] in H; [|discriminate H].
  destruct (get g "edges") as [edges0|] eqn:Ee; cbn [bind] in H; [|discriminate H].
  destruct (iter (if truthy nodes then nodes else VArr [] [])) as [nl|] eqn:Enl;
    cbn [bind] in H; [|discriminate H].
  destruct (fold_res node_step nl _) as [ns|] eqn:Ens; cbn [bind] in H; [|discriminate H].
  destruct (iter (if truthy edges0 then edges0 else VArr [] [])) as [el|] eqn:Eel;
    cbn [bind] in H; [|discriminate H].
  destruct (fold_res edge_step el _) as [es|] eqn:Ees; cbn [bind] in H; [|discriminate H].
  destruct (fold_res (op_step (entityDict ns)) _ _) as [os|] eqn:Eos;
    cbn [bind] in H; [|discriminate H].
  injection H as <- <-.
  destruct edges0 as [| | | | | xs props | ekvs];
    try (unfold mergeOperation; rewrite Eg, En, Ee; cbn [negb bind];
         rewrite Enl; cbn [bind]; rewrite Ens; cbn [bind]; rewrite Eel; cbn [bind]; rewrite Ees; cbn [bind];
         rewrite Eos; reflexivity).
  cbn [truthy iter] in Eel. injection Eel as <-.
  destruct (edge_fold_again _ _ _ Ees) as [l' [H1 H2]]. cbn [edges_after app] in H1.
  cbv beta iota. unfold mergeOperation. rewrite truthy_put_entry, Eg. cbn [negb].
  rewrite get_put_entry_other by discriminate. rewrite En. cbn [bind].
  rewrite (get_put_entry_edges _ _ _ _ Ee). cbn [bind truthy iter].
  rewrite Enl. cbn [bind]. rewrite Ens. cbn [bind].
  rewrite H1, H2. cbn [bind].
  rewrite Eos. cbn [bind]. rewrite <- H1, put_entry_twice_edges.
  reflexivity.
Qed.

Lemma mergeOperation_idempotent_witness :
  exists m g', mergeOperation select_graph = Ok (m, g') /\
               mergeOperation g' = Ok (m, g').
Proof.
  destruct (mergeOperation select_graph) as [[m g']|e] eqn:E;
    [|vm_compute in E; discriminate E].
  exists m, g'. split; [reflexivity|].
  exact (mergeOperation_idempotent _ _ _ E).
Defined.

(** [mergeOperation] writes nothing onto the graph apart from its [edges]:
    every other property reads back as before.  When [graph.edges] is an
    array of edge objects, it afterwards holds the same edges, those without
    a truthy [code_info] having received the default record; when
    [graph.edges] is not an array, the graph is returned unchanged. *)
Theorem mergeOperation_frame (g m g' : val) :
  mergeOperation g = Ok (m, g') ->
  (forall k, k <> "edges" -> get g' k = get g k) /\
  (forall es p, get g "edges" = Ok (VArr es p) ->
     Forall (fun e => exists ekvs, e = VObj ekvs) es ->
     get g' "edges" = Ok (VArr (map with_code_info es) p)) /\
  ((forall es p, get g "edges" <> Ok (VArr es p)) -> g' = g).
Proof.
  intros H. unfold mergeOperation in H.
  destruct (truthy g) eqn:Eg; cbn [negb] in H.
  2:{ injection H as <- <-. split; [reflexivity|]. split; [|reflexivity].
      intros es p He _. destruct g; try discriminate Eg; discriminate He. }
  destruct (get g "nodes") as [nodes|] eqn:En; cbn [bind] in H; [|discriminate H].
  destruct (get g "edges") as [edges0|] eqn:Ee; cbn [bind] in H; [|discriminate H].
  destruct (iter (if truthy nodes then nodes else VArr [] [])) as [nl|] eqn:Enl;
    cbn [bind] in H; [|discriminate H].
  destruct (fold_res node_step nl _) as [ns|] eqn:Ens; cbn [bind] in H; [|discriminate H].
  destruct (iter (if truthy edges0 then edges0 else VArr [] [])) as [el|] eqn:Eel;
    cbn [bind] in H; [|discriminate H].
  destruct (fold_res edge_step el _) as [es|] eqn:Ees; cbn [bind] in H; [|discriminate H].
  destruct (fold_res (op_step (entityDict ns)) _ _) as [os|] eqn:Eos;
    cbn [bind] in H; [|discriminate H].
  injection H as <- <-.
  destruct edges0 as [| | | | | xs props | ekvs];
    try (split; [reflexivity|]; split; [intros ? ? E; discriminate E|reflexivity]).
  cbn [truthy iter] in Eel. injection Eel as <-.
  split; [|split].
  - intros k Hk. apply get_put_entry_other. congruence.
  - intros es' p' E' Hf. injection E' as <- <-.
    rewrite (get_put_entry_edges _ _ _ _ Ee).
    rewrite (edge_loop_after _ _ _ Hf Ees). reflexivity.
  - intros Hn. exfalso. exact (Hn _ _ eq_refl).
Qed.

(** A graph object whose [nodes] and [edges] are both missing or falsy
    merges to empty [dataframe] and [operation] mappings, and is left as it
    was. *)
Theorem mergeOperation_no_nodes_edges (kvs : list (string * val)) :
  truthy (get_opt (VObj kvs) "nodes") = false ->
  truthy (get_opt (VObj kvs) "edges") = false ->
  mergeOperation (VObj kvs) = Ok (empty_merged, VObj kvs).
Proof.
  intros Hn He. unfold mergeOperation. cbn [truthy negb].
  rewrite !get_obj. cbn [bind]. rewrite Hn, He. cbn [iter bind fold_res].
  destruct (get_opt (VObj kvs) "edges"); try discriminate He; reflexivity.
Qed.

Lemma mergeOperation_frame_witness :
  exists m g', mergeOperation select_graph = Ok (m, g') /\
    get g' "nodes" = get select_graph "nodes" /\
    get g' "edges" =
      Ok (VArr (map with_code_info [edge_of "select" "1" "2" "a" "b"]) []).
Proof.
  destruct (mergeOperation select_graph) as [[m g']|e] eqn:E;
    [|vm_compute in E; discriminate E].
  exists m, g'. split; [reflexivity|].
  destruct (mergeOperation_frame _ _ _ E) as [H1 [H2 _]].
  split; [apply H1; discriminate|].
  apply H2; [reflexivity|].
  apply Forall_cons; [eexists; reflexivity|apply Forall_nil].
Defined.

Lemma mergeOperation_no_nodes_edges_witness :
  mergeOperation (VObj [("nodes", VNull); ("name", VStr "g")]) =
    Ok (empty_merged, VObj [("nodes", VNull); ("name", VStr "g")]).
Proof. apply mergeOperation_no_nodes_edges; reflexivity. Defined.

Lemma in_keys_js_set (kvs : list (string * val)) (k k' : string) (v : val) :
  In k' (map fst (js_set kvs k v)) <-> k' = k \/ In k' (map fst kvs).
Proof.
  induction kvs as [|[k0 w] t IH]; simpl.
  - split; intros [H|H]; auto; contradiction.
  - destruct (String.eqb k0 k) eqn:E; simpl.
    + apply String.eqb_eq in E. subst.
      split; [intros [H|H]; auto | intros [H|[H|H]]; auto].
    + rewrite IH. split; [intros [H|[H|H]]; auto | intros [H|[H|H]]; auto].
Qed.

Lemma js_set_NoDup (kvs : list (string * val)) (k : string) (v : val) :
  NoDup (map fst kvs) -> NoDup (map fst (js_set kvs k v)).
Proof.
  induction kvs as [|[k0 w] t IH]; simpl; intros H.
  - constructor; [intros []|constructor].
  - inversion H as [|? ? Hn Ht]; subst.
    destruct (String.eqb k0 k) eqn:E; simpl.
    + constructor; assumption.
    + constructor; [|auto]. rewrite in_keys_js_set.
      intros [->|Hi]; [rewrite String.eqb_refl in E; discriminate E|contradiction].
Qed.

Lemma get_present (v : val) (k : string) :
  present v -> get v k = Ok (get_opt v k).
Proof. intros [H1 H2]. destruct v; try contradiction; reflexivity. Qed.

Lemma column_fold (cols : list val) : forall acc cs,
  fold_res (fun columns column =>
              let! name := get column "column_name" in
              let! type_ := get column "column_type" in
              Ok (js_set columns (to_str name) type_)) cols acc = Ok cs ->
  NoDup (map fst acc) ->
  NoDup (map fst cs) /\
  forall k, lookup_v cs k = fold_left (fun a c => column_step a c k) cols (lookup_v acc k).
Proof.
  induction cols as [|c t IH]; intros acc cs H Hnd; cbn [fold_res] in H.
  - injection H as <-. auto.
  - destruct (get c "column_name") as [n|] eqn:En; cbn [bind] in H; [|discriminate H].
    destruct (get c "column_type") as [ty|] eqn:Et; cbn [bind] in H; [|discriminate H].
    destruct (IH _ _ H (js_set_NoDup _ _ _ Hnd)) as [H1 H2].
    split; [exact H1|]. intros k. rewrite H2. cbn [fold_left]. f_equal.
    rewrite lookup_js_set. unfold column_step, get_opt. rewrite En, Et. reflexivity.
Qed.

(** The column mapping built from an array of columns has each column name
    once, mapped to the [column_type] of the last column of that name: a later
    column of the same name replaces the type of an earlier one. *)
Theorem fold_columns_lookup (cols : list val) (p : list (string * val))
    (cs : list (string * val)) :
  fold_columns (VArr cols p) = Ok cs ->
  NoDup (map fst cs) /\ forall k, lookup_v cs k = last_column_type cols k.
Proof.
  intros H. unfold fold_columns in H. cbn [iter bind] in H.
  exact (column_fold cols [] cs H (NoDup_nil _)).
Qed.

Lemma column_fold_throws (cols : list val) : forall acc,
  (exists cs, fold_res (fun columns column =>
              let! name := get column "column_name" in
              let! type_ := get column "column_type" in
              Ok (js_set columns (to_str name) type_)) cols acc = Ok cs) <->
  Forall present cols.
Proof.
  induction cols as [|c t IH]; intros acc; cbn [fold_res].
  - split; [constructor|eauto].
  - rewrite Forall_cons_iff. split.
    + intros [cs H].
      destruct (get c "column_name") as [n|] eqn:En; cbn [bind] in H; [|discriminate H].
      destruct (get c "column_type") as [ty|] eqn:Et; cbn [bind] in H; [|discriminate H].
      split; [|apply (IH (js_set acc (to_str n) ty)); eauto].
      split; intros ->; discriminate En.
    + intros [Hc Ht]. rewrite !get_present by exact Hc. cbn [bind].
      apply IH. exact Ht.
Qed.

(** Folding an array of columns succeeds exactly when no column is [null]
    or [undefined]; reading [column_name] of such a column throws. *)
Theorem fold_columns_throws (cols : list val) (p : list (string * val)) :
  (exists cs, fold_columns (VArr cols p) = Ok cs) <-> Forall present cols.
Proof.
  unfold fold_columns. cbn [iter bind]. apply column_fold_throws.
Qed.

Lemma fold_columns_lookup_witness :
  exists cs, fold_columns (VArr [column "a" "int"; column "a" "text"] []) = Ok cs /\
    NoDup (map fst cs) /\ lookup_v cs "a" = Some (VStr "text").
Proof.
  eexists. split; [reflexivity|].
  destruct (fold_columns_lookup [column "a" "int"; column "a" "text"] [] _ eq_refl)
    as [H1 H2].
  split; [exact H1|]. rewrite H2. reflexivity.
Defined.

Lemma node_loop_entries (ns : list val) : forall st st' used,
  Forall has_string_name ns ->
  existingDataframeKeys st = map VStr used ->
  map fst (dataframe st) = used ->
  fold_res node_step ns st = Ok st' ->
  exists df, dataframe st' = (dataframe st ++ df)%list /\
             Forall2 node_entry ns (map snd df).
Proof.
  induction ns as [|node ns IH]; intros st st' used Hf Hex Hdf H;
    cbn [fold_res] in H.
  - injection H as <-. exists []. rewrite app_nil_r. auto.
  - apply Forall_cons_iff in Hf as [[s Hs] Hf'].
    destruct (node_step st node) as [st1|e] eqn:E1; cbn [bind] in H;
      [|discriminate H].
    unfold node_step in E1.
    destruct (get node "columns") as [nc|] eqn:Ec; cbn [bind] in E1; [|discriminate E1].
    destruct (fold_columns nc) as [cols|] eqn:Ef; cbn [bind] in E1; [|discriminate E1].
    rewrite Hs in E1. cbn [bind] in E1.
    destruct (get node "id") as [id|] eqn:Ei; cbn [bind] in E1; [|discriminate E1].
    rewrite Hex in E1.
    destruct (generateUniqueKey_spec s used) as [k [Hk Hok]].
    rewrite Hk in E1. injection E1 as <-.
    assert (Hfr : ~ In k (map fst (dataframe st))) by
      (rewrite Hdf; apply (key_ok_fresh _ s); exact Hok).
    apply (IH _ _ (used ++ [k])%list Hf') in H as [df [H1 H2]].
    + cbn [dataframe to_str] in H1. rewrite js_set_fresh in H1 by exact Hfr.
      exists ((k, VObj [("id", id); ("columns", VObj cols)]) :: df).
      rewrite <- app_assoc in H1. split; [exact H1|].
      constructor; [|exact H2].
      exists nc, cols. unfold get_opt. rewrite Ei. auto.
    + simpl. rewrite map_app. reflexivity.
    + simpl. rewrite js_set_fresh by exact Hfr.
      rewrite map_app, Hdf. reflexivity.
Qed.

(** When [graph.nodes] is an array of nodes with string names, the
    [dataframe] mapping has one entry per node, in node order, holding the
    node's [id] and its column mapping folded from [node.columns]. *)
Theorem mergeOperation_dataframe_entries (g m g' : val) (nodes : list val)
    (p : list (string * val)) :
  get g "nodes" = Ok (VArr nodes p) ->
  Forall has_string_name nodes ->
  mergeOperation g = Ok (m, g') ->
  exists df, get m "dataframe" = Ok (VObj df) /\
             Forall2 node_entry nodes (map snd df).
Proof.
  intros Hn Hf H. unfold mergeOperation in H.
  assert (Hg : truthy g = true) by (destruct g; try discriminate Hn; reflexivity).
  rewrite Hg, Hn in H. cbn [negb truthy bind iter] in H.
  destruct (get g "edges") as [edges0|] eqn:Ee; cbn [bind] in H; [|discriminate H].
  destruct (fold_res node_step nodes _) as [ns|] eqn:Ens; cbn [bind] in H; [|discriminate H].
  destruct (iter (if truthy edges0 then edges0 else VArr [] [])) as [el|] eqn:Eel;
    cbn [bind] in H; [|discriminate H].
  destruct (fold_res edge_step el _) as [es|] eqn:Ees; cbn [bind] in H; [|discriminate H].
  destruct (fold_res (op_step (entityDict ns)) _ _) as [os|] eqn:Eos;
    cbn [bind] in H; [|discriminate H].
  injection H as <- <-.
  destruct (node_loop_entries nodes {| entityDict := []; dataframe := []; existingDataframeKeys := [] |} ns [] Hf eq_refl eq_refl Ens) as [df [H1 H2]].
  exists df. split; [|exact H2]. rewrite H1. reflexivity.
Qed.

Lemma set_has_single_str (v : val) (s : string) :
  (forall s', v <> VStr s') -> set_has [VStr s] v = false.
Proof. intros H. destruct v; try reflexivity. exfalso. exact (H s0 eq_refl). Qed.

(** [generateUniqueKey] compares keys with SameValueZero but the dataframe
    is keyed by their string form: the key of a node whose name is not a
    string collides with that of an earlier node named by its string form
    (a node without a name after a node named ["undefined"]), and the later
    node's entry replaces the earlier one. *)
Theorem mergeOperation_name_collision (g m g' n1 n2 v : val)
    (p : list (string * val)) :
  get g "nodes" = Ok (VArr [n1; n2] p) ->
  get n1 "name" = Ok (VStr (to_str v)) ->
  get n2 "name" = Ok v ->
  (forall s, v <> VStr s) ->
  mergeOperation g = Ok (m, g') ->
  exists e2, node_entry n2 e2 /\ get m "dataframe" = Ok (VObj [(to_str v, e2)]).
Proof.
  intros Hn H1 H2 Hv H. unfold mergeOperation in H.
  assert (Hg : truthy g = true) by (destruct g; try discriminate Hn; reflexivity).
  rewrite Hg, Hn in H. cbn [negb truthy bind iter] in H.
  destruct (get g "edges") as [edges0|] eqn:Ee; cbn [bind] in H; [|discriminate H].
  destruct (fold_res node_step [n1; n2] _) as [ns|] eqn:Ens; cbn [bind] in H; [|discriminate H].
  destruct (iter (if truthy edges0 then edges0 else VArr [] [])) as [el|] eqn:Eel;
    cbn [bind] in H; [|discriminate H].
  destruct (fold_res edge_step el _) as [es|] eqn:Ees; cbn [bind] in H; [|discriminate H].
  destruct (fold_res (op_step (entityDict ns)) _ _) as [os|] eqn:Eos;
    cbn [bind] in H; [|discriminate H].
  injection H as <- <-.
  cbn [fold_res] in Ens. unfold node_step at 1 in Ens.
  destruct (get n1 "columns") as [nc1|] eqn:Ec1; cbn [bind] in Ens; [|discriminate Ens].
  destruct (fold_columns nc1) as [cols1|] eqn:Ef1; cbn [bind] in Ens; [|discriminate Ens].
  rewrite H1 in Ens. cbn [bind] in Ens.
  destruct (get n1 "id") as [id1|] eqn:Ei1; cbn [bind] in Ens; [|discriminate Ens].
  cbn [existingDataframeKeys app dataframe entityDict js_set] in Ens.
  unfold node_step in Ens.
  destruct (get n2 "columns") as [nc2|] eqn:Ec2; cbn [bind] in Ens; [|discriminate Ens].
  destruct (fold_columns nc2) as [cols2|] eqn:Ef2; cbn [bind] in Ens; [|discriminate Ens].
  rewrite H2 in Ens. cbn [bind] in Ens.
  destruct (get n2 "id") as [id2|] eqn:Ei2; cbn [bind] in Ens; [|discriminate Ens].
  cbn [existingDataframeKeys fold_res bind] in Ens. injection Ens as <-.
  assert (Hk1 : generateUniqueKey (VStr (to_str v)) [] = VStr (to_str v)) by reflexivity.
  assert (Hk2 : generateUniqueKey v [VStr (to_str v)] = v).
  { unfold generateUniqueKey. cbn [List.length unique_key_loop].
    rewrite set_has_single_str by exact Hv. reflexivity. }
  rewrite Hk1 in *. cbn [app] in *. rewrite Hk2.
  exists (VObj [("id", id2); ("columns", VObj cols2)]). split.
  - exists nc2, cols2. unfold get_opt. rewrite Ei2. auto.
  - cbn [dataframe js_set to_str]. rewrite String.eqb_refl. reflexivity.
Qed.

Lemma mergeOperation_dataframe_entries_witness :
  exists m g' df, mergeOperation select_graph = Ok (m, g') /\
    get m "dataframe" = Ok (VObj df) /\
    Forall2 node_entry [node_of "1" "t1" (VArr [column "a" "int"] []);
                        node_of "2" "t2" (VArr [column "b" "int"] [])] (map snd df).
Proof.
  destruct (mergeOperation select_graph) as [[m g']|e] eqn:E;
    [|vm_compute in E; discriminate E].
  assert (Hf : Forall has_string_name
                 [node_of "1" "t1" (VArr [column "a" "int"] []);
                  node_of "2" "t2" (VArr [column "b" "int"] [])]).
  { apply Forall_cons; [eexists; reflexivity|].
    apply Forall_cons; [eexists; reflexivity|apply Forall_nil]. }
  destruct (mergeOperation_dataframe_entries select_graph m g' _ [] eq_refl Hf E)
    as [df [H1 H2]].
  exists m, g', df. auto.
Defined.

Lemma mergeOperation_name_collision_witness :
  let g := graph_of [node_of "1" "undefined" (VArr [] []);
                     VObj [("id", VStr "2"); ("columns", VArr [] [])]] [] in
  exists m g' e2, mergeOperation g = Ok (m, g') /\
    get m "dataframe" = Ok (VObj [("undefined", e2)]).
Proof.
  intros g.
  destruct (mergeOperation g) as [[m g']|e] eqn:E;
    [|vm_compute in E; discriminate E].
  destruct (mergeOperation_name_collision g m g' (node_of "1" "undefined" (VArr [] []))
              (VObj [("id", VStr "2"); ("columns", VArr [] [])]) VUndef []
              eq_refl eq_refl eq_refl (fun s H => ltac:(discriminate H)) E)
    as [e2 [_ H]].
  exists m, g', e2. auto.
Defined.

Lemma fold_res_throws {A B} (f : A -> B -> res A) (x : B) (l : list B) :
  In x l -> (forall a, exists msg, f a x = Throw msg) ->
  forall a, exists msg, fold_res f l a = Throw msg.
Proof.
  intros Hin Hx. induction l as [|y l IH]; [destruct Hin|]. intros a.
  cbn [fold_res]. destruct Hin as [->|Hin].
  - destruct (Hx a) as [msg E]. rewrite E. exists msg. reflexivity.
  - destruct (f a y) as [a'|msg]; cbn [bind]; [apply IH; exact Hin|].
    exists msg. reflexivity.
Qed.

Lemma process_step_throws (jobName processName : string) (process : val) :
  primitive process = true ->
  forall acc, exists msg, process_step jobName acc (processName, process) = Throw msg.
Proof.
  intros Hp [mr job]. unfold process_step.
  destruct process as [| | b | n | s | |]; try discriminate Hp;
    cbn [get bind]; try (eexists; reflexivity);
    unfold mergeOperation; cbn [truthy negb put_entry entries bind].
  destruct s as [|c s]; cbn [chars map indexed app fold_res].
  - cbn [set bind]. eexists. reflexivity.
  - unfold stage_step at 1. cbn [String.eqb get truthy put_entry bind set].
    eexists. reflexivity.
Qed.

Lemma job_step_throws (jobName processName : string) (pkvs : list (string * val))
    (process : val) :
  In (processName, process) pkvs -> primitive process = true ->
  forall acc, exists msg, job_step acc (jobName, VObj pkvs) = Throw msg.
Proof.
  intros Hin Hp [mr jobs]. unfold job_step. cbn [entries bind].
  destruct (fold_res_throws (process_step jobName) _ pkvs Hin
              (process_step_throws jobName processName process Hp) (mr, VObj pkvs))
    as [msg E].
  rewrite E. exists msg. reflexivity.
Qed.

(** A job collection in which some job has a process that is not an object
    or array ([null], a number, a string, ...) makes [analyzeJob] throw: the
    process cannot receive its [key_info], or, for a string, its first
    character-stage cannot. *)
Theorem analyzeJob_primitive_process (jkvs pkvs : list (string * val))
    (jobName processName : string) (process : val) :
  In (jobName, VObj pkvs) jkvs ->
  In (processName, process) pkvs ->
  primitive process = true ->
  exists msg, analyzeJob (VObj jkvs) = Throw msg.
Proof.
  intros H1 H2 Hp. unfold analyzeJob. cbn [entries bind].
  destruct (fold_res_throws job_step _ jkvs H1
              (job_step_throws jobName processName pkvs process H2 Hp) ([], VObj jkvs))
    as [msg E].
  rewrite E. exists msg. reflexivity.
Qed.

Lemma analyzeJob_primitive_process_witness :
  exists msg, analyzeJob (VObj [("job", VObj [("p", VNum 3)])]) = Throw msg.
Proof.
  apply (analyzeJob_primitive_process _ [("p", VNum 3)] "job" "p" (VNum 3));
    [left; reflexivity | left; reflexivity | reflexivity].
Defined.

Lemma lookup_None_notin (kvs : list (string * val)) (k : string) :
  lookup_v kvs k = None -> ~ In k (map fst kvs).
Proof.
  induction kvs as [|[k0 w] t IH]; simpl; [tauto|].
  destruct (String.eqb k0 k) eqn:E; [discriminate|].
  intros H [->|Hi]; [rewrite String.eqb_refl in E; discriminate E|exact (IH H Hi)].
Qed.

Lemma notin_lookup_None (kvs : list (string * val)) (k : string) :
  ~ In k (map fst kvs) -> lookup_v kvs k = None.
Proof.
  induction kvs as [|[k0 w] t IH]; simpl; [reflexivity|]. intros H.
  destruct (String.eqb k0 k) eqn:E.
  - apply String.eqb_eq in E. exfalso. exact (H (or_introl E)).
  - apply IH. intros Hi. exact (H (or_intror Hi)).
Qed.

Lemma keys_js_set_in (kvs : list (string * val)) (k : string) (v : val) :
  In k (map fst kvs) -> map fst (js_set kvs k v) = map fst kvs.
Proof.
  induction kvs as [|[k0 w] t IH]; simpl; [tauto|]. intros H.
  destruct (String.eqb k0 k) eqn:E; simpl; [reflexivity|].
  f_equal. apply IH. destruct H as [->|H]; [|exact H].
  rewrite String.eqb_refl in E. discriminate E.
Qed.

Lemma lookup_Some_in (kvs : list (string * val)) (k : string) (v : val) :
  lookup_v kvs k = Some v -> In k (map fst kvs).
Proof.
  intros H. destruct (in_dec String.string_dec k (map fst kvs)) as [I|I]; [exact I|].
  rewrite notin_lookup_None in H by exact I. discriminate H.
Qed.

Lemma set_job_entry_keys (mr : list (string * val)) (jn pn : string) (v : val)
    (kvs : list (string * val)) :
  lookup_v mr jn = Some (VObj kvs) ->
  map fst (set_job_entry mr jn pn v) = map fst mr /\
  exists kvs', lookup_v (set_job_entry mr jn pn v) jn = Some (VObj kvs').
Proof.
  intros H. unfold set_job_entry. rewrite H. split.
  - apply keys_js_set_in. exact (lookup_Some_in _ _ _ H).
  - rewrite lookup_js_set, String.eqb_refl. eauto.
Qed.

Lemma process_step_keys (jn : string) (mr : list (string * val)) (job : val)
    (e : string * val) (mr' : list (string * val)) (job' : val) :
  process_step jn (mr, job) e = Ok (mr', job') ->
  (lookup_v mr jn = None ->
     map fst mr' = (map fst mr ++ [jn])%list /\
     exists kvs, lookup_v mr' jn = Some (VObj kvs)) /\
  (forall kvs, lookup_v mr jn = Some (VObj kvs) ->
     map fst mr' = map fst mr /\
     exists kvs', lookup_v mr' jn = Some (VObj kvs')).
Proof.
  destruct e as [pn process]. intros H. unfold process_step in H.
  destruct (get process "graph") as [pg|] eqn:E1; cbn [bind] in H; [|discriminate H].
  destruct (mergeOperation pg) as [[pm pg']|] eqn:E2; cbn [bind] in H; [|discriminate H].
  destruct (entries (put_entry process "graph" pg')) as [ses|] eqn:E3;
    cbn [bind] in H; [|discriminate H].
  destruct (fold_res stage_step ses _) as [[ms pr]|] eqn:E4; cbn [bind] in H; [|discriminate H].
  destruct (set pm "stages" (VObj ms)) as [pm'|] eqn:E5; cbn [bind] in H; [|discriminate H].
  destruct (set pr "key_info" pm') as [pr'|] eqn:E6; cbn [bind] in H; [|discriminate H].
  injection H as <- <-. split.
  - intros Hn. rewrite Hn. cbn [truthy].
    assert (Hl : lookup_v (js_set mr jn (VObj [])) jn = Some (VObj []))
      by (rewrite lookup_js_set, String.eqb_refl; reflexivity).
    destruct (set_job_entry_keys _ _ pn pm' _ Hl) as [K L]. split; [|exact L].
    rewrite K, js_set_fresh by exact (lookup_None_notin _ _ Hn). apply map_app.
  - intros kvs Hk. rewrite Hk. cbn [truthy].
    exact (set_job_entry_keys _ _ pn pm' _ Hk).
Qed.

Lemma process_loop_keys (jn : string) (pes : list (string * val)) :
  forall mr job mr' job' kvs,
  lookup_v mr jn = Some (VObj kvs) ->
  fold_res (process_step jn) pes (mr, job) = Ok (mr', job') ->
  map fst mr' = map fst mr.
Proof.
  induction pes as [|e pes IH]; intros mr job mr' job' kvs Hk H; cbn [fold_res] in H.
  - injection H as <- <-. reflexivity.
  - destruct (process_step jn (mr, job) e) as [[mr1 job1]|] eqn:E; cbn [bind] in H;
      [|discriminate H].
    destruct (proj2 (process_step_keys _ _ _ _ _ _ E) kvs Hk) as [K [kvs1 L]].
    rewrite <- K. exact (IH _ _ _ _ _ L H).
Qed.

Lemma job_step_keys (mr : list (string * val)) (jobs : val) (jn : string)
    (job : val) (mr' : list (string * val)) (jobs' : val) :
  job_step (mr, jobs) (jn, job) = Ok (mr', jobs') ->
  lookup_v mr jn = None ->
  map fst mr' = (map fst mr ++ (if has_process (jn, job) then [jn] else []))%list.
Proof.
  intros H Hn. unfold job_step in H. unfold has_process. cbn [snd].
  destruct (entries job) as [pes|] eqn:E1; cbn [bind] in H; [|discriminate H].
  destruct (fold_res (process_step jn) pes (mr, job)) as [[mr1 job1]|] eqn:E2;
    cbn [bind] in H; [|discriminate H].
  injection H as <- <-.
  destruct pes as [|e pes]; cbn [fold_res] in E2.
  - injection E2 as <- <-. rewrite app_nil_r. reflexivity.
  - destruct (process_step jn (mr, job) e) as [[mr2 job2]|] eqn:E3; cbn [bind] in E2;
      [|discriminate E2].
    destruct (proj1 (process_step_keys _ _ _ _ _ _ E3) Hn) as [K [kvs L]].
    rewrite (process_loop_keys _ _ _ _ _ _ _ L E2). exact K.
Qed.

Lemma job_loop_keys (jes : list (string * val)) : forall mr jobs mr' jobs',
  fold_res job_step jes (mr, jobs) = Ok (mr', jobs') ->
  NoDup (map fst jes) ->
  (forall k, In k (map fst jes) -> ~ In k (map fst mr)) ->
  map fst mr' = (map fst mr ++ map fst (filter has_process jes))%list.
Proof.
  induction jes as [|[jn job] jes IH]; intros mr jobs mr' jobs' H Hnd Hdis;
    cbn [fold_res] in H.
  - injection H as <- <-. rewrite app_nil_r. reflexivity.
  - destruct (job_step (mr, jobs) (jn, job)) as [[mr1 jobs1]|] eqn:E; cbn [bind] in H;
      [|discriminate H].
    inversion Hnd as [|? ? Hn Hnd']; subst.
    pose proof (job_step_keys _ _ _ _ _ _ E
                  (notin_lookup_None _ _ (Hdis jn (or_introl eq_refl)))) as K.
    rewrite (IH _ _ _ _ H Hnd').
    + rewrite K. cbn [filter]. destruct (has_process (jn, job)); cbn [map];
        rewrite <- app_assoc; reflexivity.
    + intros k Hk. rewrite K, in_app_iff. intros [Hi|Hi].
      * exact (Hdis k (or_intror Hk) Hi).
      * destruct (has_process (jn, job)); [|destruct Hi].
        destruct Hi as [<-|[]]. exact (Hn Hk).
Qed.

(** The merged report of [analyzeJob] has one key per job that has at least
    one process, in the order of the jobs; a job without processes gets no
    entry. *)
Theorem analyzeJob_keys (jkvs mr : list (string * val)) (jobs' : val) :
  analyzeJob (VObj jkvs) = Ok (VObj mr, jobs') ->
  NoDup (map fst jkvs) ->
  map fst mr = map fst (filter has_process jkvs).
Proof.
  intros H Hnd. unfold analyzeJob in H. cbn [entries bind] in H.
  destruct (fold_res job_step jkvs ([], VObj jkvs)) as [[mr1 j1]|] eqn:E;
    cbn [bind] in H; [|discriminate H].
  injection H as <- <-.
  exact (job_loop_keys _ _ _ _ _ E Hnd (fun k _ H => H)).
Qed.

Lemma analyzeJob_keys_witness :
  exists mr jobs',
    analyzeJob (VObj [("a", VObj [("p", VObj [])]); ("b", VObj [])]) =
      Ok (VObj mr, jobs') /\
    map fst mr = ["a"].
Proof.
  destruct (analyzeJob (VObj [("a", VObj [("p", VObj [])]); ("b", VObj [])]))
    as [[[| | | | | |mr] jobs']|e] eqn:E; try (vm_compute in E; discriminate E).
  exists mr, jobs'. split; [reflexivity|].
  rewrite (analyzeJob_keys _ _ _ E); [reflexivity|].
  repeat constructor; simpl; intuition discriminate.
Defined.

Lemma put_entry_obj_keys (kvs : list (string * val)) (k : string) (x : val) :
  exists kvs', put_entry (VObj kvs) k x = VObj kvs' /\ map fst kvs' = map fst kvs.
Proof.
  cbn [put_entry]. destruct (lookup_v kvs k) eqn:E; eexists; split; try reflexivity.
  apply keys_js_set_in. eapply lookup_Some_in. exact E.
Qed.

Lemma filter_xml_js_set (kvs : list (string * val)) (k : string) (v : val) :
  is_xml k = false ->
  filter is_xml (map fst (js_set kvs k v)) = filter is_xml (map fst kvs).
Proof.
  intros Hk. induction kvs as [|[k0 w] t IH]; cbn [js_set map filter].
  - cbn [fst]. rewrite Hk. reflexivity.
  - destruct (String.eqb k0 k) eqn:E; cbn [map filter]; [reflexivity|].
    rewrite IH. reflexivity.
Qed.

Lemma xml_loop_keys (es : list (string * val)) : forall mr rep mr' rep',
  fold_res xml_step es (mr, rep) = Ok (mr', rep') ->
  NoDup (map fst es) ->
  (forall k, In k (map fst es) -> is_xml k = true -> ~ In k (map fst mr)) ->
  map fst mr' = (map fst mr ++ filter is_xml (map fst es))%list.
Proof.
  induction es as [|[xn jobs] es IH]; intros mr rep mr' rep' H Hnd Hdis;
    cbn [fold_res] in H.
  - injection H as <- <-. rewrite app_nil_r. reflexivity.
  - inversion Hnd as [|? ? Hn Hnd']; subst.
    unfold xml_step at 1 in H. cbn [map filter fst]. fold (is_xml xn) in *.
    destruct (is_xml xn) eqn:Ex.
    + destruct (analyzeJob jobs) as [[mj uj]|] eqn:E1; cbn [bind] in H; [|discriminate H].
      destruct (set rep xn uj) as [rep1|] eqn:E2; cbn [bind] in H; [|discriminate H].
      assert (Hf : ~ In xn (map fst mr)) by exact (Hdis xn (or_introl eq_refl) Ex).
      rewrite (IH _ _ _ _ H Hnd').
      * rewrite js_set_fresh by exact Hf. rewrite map_app, <- app_assoc. reflexivity.
      * intros k Hk Hx. rewrite js_set_fresh by exact Hf. rewrite map_app, in_app_iff.
        intros [Hi|[<-|[]]]; [exact (Hdis k (or_intror Hk) Hx Hi)|exact (Hn Hk)].
    + rewrite (IH _ _ _ _ H Hnd'); [reflexivity|].
      intros k Hk Hx. exact (Hdis k (or_intror Hk) Hx).
Qed.

(** The merged report of [analyzeXmlReport] holds [entire_report] first,
    then, when the report has a graph (its own or the fallback one), one
    entry per top-level key containing [.xml] in any letter case, in key
    order; without any graph it holds [entire_report] only. *)
Theorem analyzeXmlReport_keys (kvs mr : list (string * val)) (r' : val) :
  analyzeXmlReport (VObj kvs) = Ok (VObj mr, r') ->
  NoDup (map fst kvs) ->
  map fst mr =
    "entire_report" ::
      (if truthy (get_opt (VObj kvs) "graph") || truthy (fallback_graph (VObj kvs))
       then filter is_xml (map fst kvs) else []).
Proof.
  intros H Hnd. unfold analyzeXmlReport in H. rewrite get_obj in H. cbn [bind] in H.
  fold (fallback_graph (VObj kvs)) in H.
  (* the report whose entries the loop walks *)
  assert (G : forall (kvs1 : list (string * val)) (aliased : bool)
              (mr0 : list (string * val)) (r0 : val),
            NoDup (map fst kvs1) ->
            filter is_xml (map fst kvs1) = filter is_xml (map fst kvs) ->
            (let! reportGraph := get (VObj kvs1) "graph" in
                   let! merged := mergeOperation reportGraph in
                   let '(reportMerged, reportGraph') := merged in
                   let report := put_entry (VObj kvs1) "graph" reportGraph' in
                   let report := if aliased then put_fallback_graph report reportGraph'
                                 else report in
                   let mergedReport := [("entire_report", reportMerged)] in
                   let! report := set report "key_info" reportMerged in
                   let! reportEntries := entries report in
                   let! r := fold_res xml_step reportEntries (mergedReport, report) in
                   let '(mergedReport, report) := r in
                   Ok (VObj mergedReport, report)) = Ok (VObj mr0, r0) ->
            map fst mr0 = "entire_report" :: filter is_xml (map fst kvs)).
  { intros kvs1 aliased mr0 r0 Hnd1 Hx1 HG. rewrite get_obj in HG. cbn [bind] in HG.
    destruct (mergeOperation (get_opt (VObj kvs1) "graph")) as [[m g']|] eqn:Em;
      cbn [bind] in HG; [|discriminate HG].
    destruct (put_entry_obj_keys kvs1 "graph" g') as [kvs2 [E2 K2]]. rewrite E2 in HG.
    assert (Hr3 : exists kvs3, (if aliased then put_fallback_graph (VObj kvs2) g'
                                else VObj kvs2) = VObj kvs3 /\ map fst kvs3 = map fst kvs2).
    { destruct aliased; [|eauto]. unfold put_fallback_graph.
      apply put_entry_obj_keys. }
    destruct Hr3 as [kvs3 [E3 K3]]. rewrite E3 in HG. cbn [set entries bind] in HG.
    destruct (fold_res xml_step (js_set kvs3 "key_info" m) _) as [[mr1 r1]|] eqn:Ef;
      cbn [bind] in HG; [|discriminate HG]. injection HG as <- <-.
    rewrite (xml_loop_keys _ _ _ _ _ Ef).
    - cbn [map fst app]. f_equal. rewrite filter_xml_js_set by reflexivity.
      rewrite K3, K2. exact Hx1.
    - apply js_set_NoDup. rewrite K3, K2. exact Hnd1.
    - intros k _ Hx [<-|[]]. discriminate Hx. }
  destruct (truthy (get_opt (VObj kvs) "graph")) eqn:Eg; cbn [bind orb] in H.
  - exact (G kvs false mr r' Hnd eq_refl H).
  - destruct (truthy (fallback_graph (VObj kvs))) eqn:Ef; cbn [bind set] in H.
    + exact (G (js_set kvs "graph" (fallback_graph (VObj kvs))) true mr r'
               (js_set_NoDup _ _ _ Hnd) (filter_xml_js_set _ "graph" _ eq_refl) H).
    + injection H as <- <-. reflexivity.
Qed.

Lemma analyzeXmlReport_keys_witness :
  exists mr r',
    analyzeXmlReport (VObj [("graph", select_graph); ("Job.XML", VObj []);
                            ("other", VNum 1)]) = Ok (VObj mr, r') /\
    map fst mr = ["entire_report"; "Job.XML"].
Proof.
  destruct (analyzeXmlReport (VObj [("graph", select_graph); ("Job.XML", VObj []);
                                    ("other", VNum 1)]))
    as [[[| | | | | |mr] r']|e] eqn:E; try (vm_compute in E; discriminate E).
  exists mr, r'. split; [reflexivity|].
  rewrite (analyzeXmlReport_keys _ _ _ E); [reflexivity|].
  repeat constructor; simpl; intuition discriminate.
Defined.

Lemma js_set_overwrite (kvs : list (string * val)) (k : string) (x y : val) :
  js_set (js_set kvs k x) k y = js_set kvs k y.
Proof.
  induction kvs as [|[k0 w] t IH]; cbn [js_set].
  - rewrite String.eqb_refl. reflexivity.
  - destruct (String.eqb k0 k) eqn:E; cbn [js_set]; rewrite E; [reflexivity|].
    rewrite IH. reflexivity.
Qed.

(** When the report has no graph of its own but a fallback graph at
    [report.report.report_result.graph], the returned report holds the
    merged-over graph both at [graph] and at
    [report.report.report_result.graph], its
    [key_info] is the merged result of that graph, and so is the
    [entire_report] entry. *)
Theorem analyzeXmlReport_fallback_alias (kvs rk rrk : list (string * val))
    (m r' : val) :
  truthy (get_opt (VObj kvs) "graph") = false ->
  get_opt (VObj kvs) "report" = VObj rk ->
  get_opt (VObj rk) "report_result" = VObj rrk ->
  truthy (get_opt (VObj rrk) "graph") = true ->
  analyzeXmlReport (VObj kvs) = Ok (m, r') ->
  exists mg g', mergeOperation (get_opt (VObj rrk) "graph") = Ok (mg, g') /\
    get_opt r' "graph" = g' /\
    fallback_graph r' = g' /\
    get_opt r' "key_info" = mg /\
    get m "entire_report" = Ok mg.
Proof.
  intros Hg Hr Hrr Hf H. unfold analyzeXmlReport in H.
  rewrite get_obj in H. cbn [bind] in H. rewrite Hg in H. cbn [bind] in H.
  assert (Efb : get_opt (get_opt (get_opt (VObj kvs) "report") "report_result") "graph"
                = get_opt (VObj rrk) "graph") by (rewrite Hr, Hrr; reflexivity).
  rewrite Efb, Hf in H. cbn [negb bind set] in H.
  set (fb := get_opt (VObj rrk) "graph") in *.
  assert (Eg1 : get (VObj (js_set kvs "graph" fb)) "graph" = Ok fb)
    by (cbn [get]; rewrite lookup_js_set, String.eqb_refl; reflexivity).
  rewrite Eg1 in H. cbn [bind] in H.
  destruct (mergeOperation fb) as [[mg g']|] eqn:Em; cbn [bind] in H; [|discriminate H].
  exists mg, g'. split; [reflexivity|].
  cbn [put_entry] in H. rewrite lookup_js_set, String.eqb_refl in H.
  rewrite js_set_overwrite in H.
  unfold put_fallback_graph in H.
  assert (E1 : get_opt (VObj (js_set kvs "graph" g')) "report" = VObj rk).
  { unfold get_opt. cbn [get]. rewrite lookup_js_set. cbn [String.eqb Ascii.eqb Bool.eqb andb].
    exact Hr. }
  rewrite E1, Hrr in H.
  assert (Lg : exists x, lookup_v rrk "graph" = Some x).
  { unfold fb, get_opt in Hf. cbn [get] in Hf.
    destruct (lookup_v rrk "graph"); [eauto|discriminate Hf]. }
  destruct Lg as [x Lg].
  assert (Lrr : exists x, lookup_v rk "report_result" = Some x).
  { unfold get_opt in Hrr. cbn [get] in Hrr.
    destruct (lookup_v rk "report_result"); [eauto|discriminate Hrr]. }
  destruct Lrr as [y Lrr].
  assert (Lr : exists x, lookup_v (js_set kvs "graph" g') "report" = Some x).
  { unfold get_opt in E1. cbn [get] in E1.
    destruct (lookup_v (js_set kvs "graph" g') "report"); [eauto|discriminate E1]. }
  destruct Lr as [z Lr].
  cbn [put_entry] in H. rewrite Lg, Lrr, Lr in H. cbn [set entries bind] in H.
  destruct (fold_res xml_step _ _) as [[mr1 r1]|] eqn:Ef;
    cbn [bind] in H; [|discriminate H].
  injection H as <- <-.
  destruct (xml_loop _ _ _ _ _ Ef) as [rk' [-> [Hrk Hmr]]].
  unfold fallback_graph, get_opt. cbn [get].
  rewrite !Hrk by reflexivity.
  rewrite !lookup_js_set. cbn -[js_set lookup_v].
  rewrite !lookup_js_set. cbn -[js_set lookup_v].
  rewrite !lookup_js_set. cbn -[js_set lookup_v].
  split; [reflexivity|]. split; [reflexivity|]. split; [reflexivity|].
  rewrite Hmr by reflexivity. reflexivity.
Qed.

Lemma analyzeXmlReport_fallback_alias_witness :
  exists m r' mg g',
    analyzeXmlReport fallback_report = Ok (m, r') /\
    mergeOperation select_graph = Ok (mg, g') /\
    get_opt r' "graph" = g' /\ fallback_graph r' = g'.
Proof.
  destruct (analyzeXmlReport fallback_report) as [[m r']|e] eqn:E;
    [|vm_compute in E; discriminate E].
  destruct (analyzeXmlReport_fallback_alias
              [("report", VObj [("report_result", VObj [("graph", select_graph)])])]
              [("report_result", VObj [("graph", select_graph)])]
              [("graph", select_graph)] m r' eq_refl eq_refl eq_refl eq_refl E)
    as [mg [g' [H1 [H2 [H3 _]]]]].
  exists m, r', mg, g'. auto.
Defined.

Lemma stage_loop_keys (ses : list (string * val)) : forall ms pr ms' pr',
  fold_res stage_step ses (ms, pr) = Ok (ms', pr') ->
  NoDup (map fst ses) ->
  (forall k, In k (map fst ses) -> ~ In k (map fst ms)) ->
  map fst ms' = (map fst ms ++ filter not_graph (map fst ses))%list.
Proof.
  induction ses as [|[sn st] ses IH]; intros ms pr ms' pr' H Hnd Hdis;
    cbn [fold_res] in H.
  - injection H as <- <-. rewrite app_nil_r. reflexivity.
  - inversion Hnd as [|? ? Hn Hnd']; subst.
    unfold stage_step at 1 in H. cbn [map filter fst]. unfold not_graph at 1.
    destruct (String.eqb sn "graph") eqn:Eg; cbn [negb bind] in H |- *.
    + rewrite (IH _ _ _ _ H Hnd'); [reflexivity|].
      intros k Hk. exact (Hdis k (or_intror Hk)).
    + destruct (get st "graph") as [sg|] eqn:E1; cbn [bind] in H; [|discriminate H].
      destruct (if truthy sg then mergeOperation sg else Ok (empty_merged, sg))
        as [[sm sg']|] eqn:E2; cbn [bind] in H; [|discriminate H].
      destruct (set (put_entry st "graph" sg') "key_info" sm) as [st'|] eqn:E3;
        cbn [bind] in H; [|discriminate H].
      assert (Hf : ~ In sn (map fst ms)) by exact (Hdis sn (or_introl eq_refl)).
      rewrite (IH _ _ _ _ H Hnd').
      * rewrite js_set_fresh by exact Hf. rewrite map_app, <- app_assoc. reflexivity.
      * intros k Hk. rewrite js_set_fresh by exact Hf. rewrite map_app, in_app_iff.
        intros [Hi|[<-|[]]]; [exact (Hdis k (or_intror Hk) Hi)|exact (Hn Hk)].
Qed.

Lemma mergeOperation_obj (g m g' : val) :
  mergeOperation g = Ok (m, g') -> exists mkvs, m = VObj mkvs.
Proof.
  intros H. unfold mergeOperation in H.
  destruct (negb (truthy g)); [injection H as <- <-; eexists; reflexivity|].
  bind_inv H. injection H as <- <-. eexists. reflexivity.
Qed.

(** After one process of a job is analyzed, the merged report holds under
    [job][process] a result whose [stages] mapping has one entry per key of
    the process other than [graph], in key order (a stage whose [graph] is
    missing gets the empty result). *)
Theorem analyzeJob_stage_keys (jn pn : string) (mr : list (string * val))
    (job : val) (pkvs : list (string * val)) (mr' : list (string * val)) (job' : val) :
  process_step jn (mr, job) (pn, VObj pkvs) = Ok (mr', job') ->
  NoDup (map fst pkvs) ->
  (lookup_v mr jn = None \/ exists kvs, lookup_v mr jn = Some (VObj kvs)) ->
  exists kvs pm ms,
    lookup_v mr' jn = Some (VObj kvs) /\ lookup_v kvs pn = Some pm /\
    get pm "stages" = Ok (VObj ms) /\
    map fst ms = filter not_graph (map fst pkvs).
Proof.
  intros H Hnd Hj. unfold process_step in H.
  destruct (get (VObj pkvs) "graph") as [pg|] eqn:E1; cbn [bind] in H; [|discriminate H].
  destruct (mergeOperation pg) as [[pm pg']|] eqn:E2; cbn [bind] in H; [|discriminate H].
  destruct (put_entry_obj_keys pkvs "graph" pg') as [pkvs2 [Ep Kp]].
  rewrite Ep in H. cbn [entries bind] in H.
  destruct (fold_res stage_step pkvs2 _) as [[ms pr]|] eqn:E4; cbn [bind] in H; [|discriminate H].
  destruct (mergeOperation_obj _ _ _ E2) as [mkvs ->]. cbn [set bind] in H.
  destruct (set pr "key_info" _) as [pr'|] eqn:E6; cbn [bind] in H; [|discriminate H].
  injection H as <- <-.
  set (mr1 := if truthy (match lookup_v mr jn with Some v => v | None => VUndef end)
              then mr else js_set mr jn (VObj [])).
  assert (Hl : exists kvs1, lookup_v mr1 jn = Some (VObj kvs1)).
  { unfold mr1. destruct Hj as [Hn|[kvs Hk]].
    - rewrite Hn. cbn [truthy]. rewrite lookup_js_set, String.eqb_refl. eauto.
    - rewrite Hk. cbn [truthy]. eauto. }
  destruct Hl as [kvs1 Hl].
  unfold set_job_entry. rewrite Hl. rewrite lookup_js_set, String.eqb_refl.
  eexists. eexists. exists ms. split; [reflexivity|].
  rewrite lookup_js_set, String.eqb_refl. split; [reflexivity|].
  cbn [get]. rewrite lookup_js_set, String.eqb_refl. split; [reflexivity|].
  rewrite (stage_loop_keys _ _ _ _ _ E4).
  - rewrite Kp. reflexivity.
  - rewrite Kp. exact Hnd.
  - intros k _ [].
Qed.

Lemma analyzeJob_stage_keys_witness :
  exists mr' job' kvs pm ms,
    process_step "job" ([], VObj [])
      ("p", VObj [("graph", select_graph); ("s1", VObj []);
                  ("s2", VObj [("graph", VNull)])]) = Ok (mr', job') /\
    lookup_v mr' "job" = Some (VObj kvs) /\ lookup_v kvs "p" = Some pm /\
    get pm "stages" = Ok (VObj ms) /\ map fst ms = ["s1"; "s2"].
Proof.
  destruct (process_step "job" ([], VObj [])
      ("p", VObj [("graph", select_graph); ("s1", VObj []);
                  ("s2", VObj [("graph", VNull)])])) as [[mr' job']|e] eqn:E;
    [|vm_compute in E; discriminate E].
  destruct (analyzeJob_stage_keys _ _ _ _ _ _ _ E) as [kvs [pm [ms [H1 [H2 [H3 H4]]]]]].
  - repeat constructor; simpl; intuition discriminate.
  - left. reflexivity.
  - exists mr', job', kvs, pm, ms. rewrite H4. auto 6.
Defined.

Lemma lookup_In (kvs : list (string * val)) (k : string) (v : val) :
  lookup_v kvs k = Some v -> In (k, v) kvs.
Proof.
  induction kvs as [|[k0 w] t IH]; cbn [lookup_v]; [discriminate|].
  destruct (String.eqb_spec k0 k) as [->|_]; intros H.
  - injection H as <-. left. reflexivity.
  - right. exact (IH H).
Qed.

Lemma In_lookup (kvs : list (string * val)) (k : string) (v : val) :
  NoDup (map fst kvs) -> In (k, v) kvs -> lookup_v kvs k = Some v.
Proof.
  induction kvs as [|[k0 w] t IH]; cbn [lookup_v map fst]; [intros _ []|].
  intros Hnd Hi. inversion Hnd as [|? ? Hn Hnd']; subst.
  destruct Hi as [Heq|Hi].
  - injection Heq as -> ->. rewrite String.eqb_refl. reflexivity.
  - destruct (String.eqb_spec k0 k) as [->|_]; [|exact (IH Hnd' Hi)].
    exfalso. apply Hn. exact (in_map fst _ _ Hi).
Qed.

Lemma put_entry_obj_lookup (kvs : list (string * val)) (k : string) (x : val) :
  exists kvs', put_entry (VObj kvs) k x = VObj kvs' /\
    map fst kvs' = map fst kvs /\
    (forall k', k' <> k -> lookup_v kvs' k' = lookup_v kvs k') /\
    (In k (map fst kvs) -> lookup_v kvs' k = Some x).
Proof.
  cbn [put_entry]. destruct (lookup_v kvs k) eqn:E; eexists; split; try reflexivity.
  - split; [apply keys_js_set_in; eapply lookup_Some_in; exact E|].
    split; intros; rewrite lookup_js_set.
    + destruct (String.eqb_spec k k'); [congruence|reflexivity].
    + rewrite String.eqb_refl. reflexivity.
  - split; [reflexivity|]. split; [reflexivity|].
    intros Hi. exfalso. exact (lookup_None_notin _ _ E Hi).
Qed.

Lemma xml_loop_other (es : list (string * val)) : forall mr rk mr' rep',
  fold_res xml_step es (mr, VObj rk) = Ok (mr', rep') ->
  exists rk', rep' = VObj rk' /\
    forall k, ~ In k (map fst es) ->
      lookup_v mr' k = lookup_v mr k /\ lookup_v rk' k = lookup_v rk k.
Proof.
  induction es as [|[xn jobs] es IH]; intros mr rk mr' rep' H; cbn [fold_res] in H.
  - injection H as <- <-. exists rk. split; [reflexivity|]. auto.
  - unfold xml_step at 1 in H.
    destruct (str_includes (toLowerCase xn) ".xml").
    + destruct (analyzeJob jobs) as [[mj uj]|] eqn:E1; cbn [bind set] in H;
        [|discriminate H].
      destruct (IH _ _ _ _ H) as [rk' [-> Hk]]. exists rk'. split; [reflexivity|].
      intros k Hn. cbn [map fst In] in Hn.
      destruct (Hk k (fun Hi => Hn (or_intror Hi))) as [H1 H2].
      rewrite H1, H2, !lookup_js_set.
      destruct (String.eqb_spec xn k); [exfalso; exact (Hn (or_introl e))|auto].
    + cbn [bind] in H. destruct (IH _ _ _ _ H) as [rk' [-> Hk]].
      exists rk'. split; [reflexivity|].
      intros k Hn. apply Hk. intros Hi. exact (Hn (or_intror Hi)).
Qed.

Lemma xml_loop_entries (es : list (string * val)) : forall mr rk mr' rep',
  fold_res xml_step es (mr, VObj rk) = Ok (mr', rep') ->
  NoDup (map fst es) ->
  exists rk', rep' = VObj rk' /\
    forall k jobs, In (k, jobs) es -> is_xml k = true ->
      exists mj uj, analyzeJob jobs = Ok (mj, uj) /\
        lookup_v mr' k = Some mj /\ lookup_v rk' k = Some uj.
Proof.
  induction es as [|[xn jobs0] es IH]; intros mr rk mr' rep' H Hnd.
  - cbn [fold_res] in H. injection H as <- <-. exists rk. split; [reflexivity|].
    intros k jobs [].
  - inversion Hnd as [|? ? Hn Hnd']; subst. cbn [fold_res] in H.
    unfold xml_step at 1 in H. fold (is_xml xn) in H.
    destruct (is_xml xn) eqn:Ex.
    + destruct (analyzeJob jobs0) as [[mj uj]|] eqn:E1; cbn [bind set] in H;
        [|discriminate H].
      destruct (IH _ _ _ _ H Hnd') as [rk' [-> Ht]].
      exists rk'. split; [reflexivity|].
      intros k jobs [Heq|Hi] Hx.
      * injection Heq as <- <-.
        destruct (xml_loop_other _ _ _ _ _ H) as [rk'' [Er Hk]].
        injection Er as <-. destruct (Hk xn Hn) as [H1 H2].
        exists mj, uj. rewrite H1, H2, !lookup_js_set, String.eqb_refl. auto.
      * exact (Ht k jobs Hi Hx).
    + cbn [bind] in H. destruct (IH _ _ _ _ H Hnd') as [rk' [-> Ht]].
      exists rk'. split; [reflexivity|].
      intros k jobs [Heq|Hi] Hx.
      * injection Heq as -> ->. congruence.
      * exact (Ht k jobs Hi Hx).
Qed.

(** What [analyzeXmlReport] computes once a report [kvs1] holding a [graph]
    key has been chosen (lines 229-243). *)
Lemma xml_report_found (kvs1 : list (string * val)) (aliased : bool) (m0 r0 : val) :
  NoDup (map fst kvs1) ->
  In "graph" (map fst kvs1) ->
  (let! reportGraph := get (VObj kvs1) "graph" in
   let! merged := mergeOperation reportGraph in
   let '(reportMerged, reportGraph') := merged in
   let report := put_entry (VObj kvs1) "graph" reportGraph' in
   let report := if aliased then put_fallback_graph report reportGraph'
                 else report in
   let mergedReport := [("entire_report", reportMerged)] in
   let! report := set report "key_info" reportMerged in
   let! reportEntries := entries report in
   let! r := fold_res xml_step reportEntries (mergedReport, report) in
   let '(mergedReport, report) := r in
   Ok (VObj mergedReport, report)) = Ok (m0, r0) ->
  exists mg g' mr rk,
    mergeOperation (get_opt (VObj kvs1) "graph") = Ok (mg, g') /\
    m0 = VObj mr /\ r0 = VObj rk /\
    lookup_v mr "entire_report" = Some mg /\
    lookup_v rk "key_info" = Some mg /\ lookup_v rk "graph" = Some g' /\
    map fst mr = "entire_report" :: filter is_xml (map fst kvs1) /\
    (forall k jobs, lookup_v kvs1 k = Some jobs -> is_xml k = true ->
       exists mj uj, analyzeJob jobs = Ok (mj, uj) /\
         lookup_v mr k = Some mj /\ lookup_v rk k = Some uj).
Proof.
  intros Hnd1 Hg HG. rewrite get_obj in HG. cbn [bind] in HG.
  destruct (mergeOperation (get_opt (VObj kvs1) "graph")) as [[mg g']|] eqn:Em;
    cbn [bind] in HG; [|discriminate HG].
  destruct (put_entry_obj_lookup kvs1 "graph" g') as [kvs2 [E2 [K2 [L2 G2]]]].
  rewrite E2 in HG.
  assert (Hr3 : exists kvs3,
            (if aliased then put_fallback_graph (VObj kvs2) g' else VObj kvs2) =
              VObj kvs3 /\ map fst kvs3 = map fst kvs2 /\
            forall k, k <> "report" -> lookup_v kvs3 k = lookup_v kvs2 k).
  { destruct aliased; [|exists kvs2; auto]. unfold put_fallback_graph.
    destruct (put_entry_obj_lookup kvs2 "report"
                (put_entry (get_opt (VObj kvs2) "report") "report_result"
                   (put_entry (get_opt (get_opt (VObj kvs2) "report") "report_result")
                      "graph" g'))) as [kvs3 [E3 [K3 [L3 _]]]].
    exists kvs3. auto. }
  destruct Hr3 as [kvs3 [E3 [K3 L3]]]. rewrite E3 in HG. cbn [set entries bind] in HG.
  destruct (fold_res xml_step (js_set kvs3 "key_info" mg) _) as [[mr1 r1]|] eqn:Ef;
    cbn [bind] in HG; [|discriminate HG]. injection HG as <- <-.
  assert (Hnd4 : NoDup (map fst (js_set kvs3 "key_info" mg))).
  { apply js_set_NoDup. rewrite K3, K2. exact Hnd1. }
  destruct (xml_loop_entries _ _ _ _ _ Ef Hnd4) as [rk' [-> He]].
  destruct (xml_loop_other _ _ _ _ _ Ef) as [rk'' [Er Ho]].
  injection Er as <-.
  destruct (xml_loop _ _ _ _ _ Ef) as [rk'' [Er [Hr Hm]]].
  injection Er as <-.
  exists mg, g', mr1, rk'. split; [reflexivity|]. split; [reflexivity|].
  split; [reflexivity|].
  split; [rewrite Hm by reflexivity; reflexivity|].
  split; [rewrite Hr, lookup_js_set by reflexivity; reflexivity|].
  split; [rewrite Hr, lookup_js_set, L3, G2 by (reflexivity || discriminate || exact Hg);
          reflexivity|].
  split.
  - rewrite (xml_loop_keys _ _ _ _ _ Ef Hnd4).
    + cbn [map fst app]. f_equal. rewrite filter_xml_js_set by reflexivity.
      rewrite K3, K2. reflexivity.
    + intros k _ Hx [<-|[]]. discriminate Hx.
  - intros k jobs Hk Hx. apply He; [|exact Hx]. apply lookup_In.
    assert (Hg' : k <> "graph") by (intros ->; discriminate Hx).
    assert (Hr' : k <> "report") by (intros ->; discriminate Hx).
    assert (Hi : k <> "key_info") by (intros ->; discriminate Hx).
    rewrite lookup_js_set. destruct (String.eqb_spec "key_info" k); [congruence|].
    rewrite L3 by exact Hr'. rewrite L2 by exact Hg'. exact Hk.
Qed.

(** [C4] (amended). Let [kvs] be a report object whose keys are distinct.
    When the report has a graph, either its own [graph] or the fallback
    [report.report.report_result.graph], the merged report holds
    [entire_report] followed by one entry per top-level key containing
    [.xml] in any letter case, in key order. The entry for such a key is the
    merged jobs that [analyzeJob] computes for the key's value. When the
    report has neither graph, the function returns early (lines 220-226):
    the merged report holds only the empty [entire_report], the report is
    returned unchanged, and no [.xml] key is read. *)
Theorem C4_xml_collections_merged (kvs : list (string * val)) (m r' : val) :
  analyzeXmlReport (VObj kvs) = Ok (m, r') ->
  NoDup (map fst kvs) ->
  if truthy (get_opt (VObj kvs) "graph") || truthy (fallback_graph (VObj kvs)) then
    exists mr, m = VObj mr /\
      map fst mr = "entire_report" :: filter is_xml (map fst kvs) /\
      forall k jobs, lookup_v kvs k = Some jobs -> is_xml k = true ->
        exists mj uj, analyzeJob jobs = Ok (mj, uj) /\ lookup_v mr k = Some mj
  else m = VObj [("entire_report", empty_merged)] /\ r' = VObj kvs.
Proof.
  intros H Hnd. unfold analyzeXmlReport in H. rewrite get_obj in H. cbn [bind] in H.
  fold (fallback_graph (VObj kvs)) in H.
  destruct (truthy (get_opt (VObj kvs) "graph")) eqn:Eg; cbn [bind orb] in H |- *.
  - assert (Hg : In "graph" (map fst kvs)).
    { apply (lookup_Some_in _ _ (get_opt (VObj kvs) "graph")).
      cbn [get_opt get] in Eg |- *. destruct (lookup_v kvs "graph"); [reflexivity|].
      discriminate Eg. }
    destruct (xml_report_found kvs false m r' Hnd Hg H)
      as [mg [g' [mr [rk [_ [-> [_ [_ [_ [_ [Hk Hx]]]]]]]]]]].
    exists mr. split; [reflexivity|]. split; [exact Hk|].
    intros k jobs Hl Hxk. destruct (Hx k jobs Hl Hxk) as [mj [uj [E1 [E2 _]]]].
    eauto.
  - destruct (truthy (fallback_graph (VObj kvs))) eqn:Ef; cbn [bind set] in H.
    + destruct (xml_report_found (js_set kvs "graph" (fallback_graph (VObj kvs))) true m r'
                  (js_set_NoDup _ _ _ Hnd)
                  (proj2 (in_keys_js_set _ _ _ _) (or_introl eq_refl)) H)
        as [mg [g' [mr [rk [_ [-> [_ [_ [_ [_ [Hk Hx]]]]]]]]]]].
      exists mr. split; [reflexivity|].
      split; [rewrite Hk, filter_xml_js_set by reflexivity; reflexivity|].
      intros k jobs Hl Hxk.
      assert (Hl' : lookup_v (js_set kvs "graph" (fallback_graph (VObj kvs))) k = Some jobs).
      { rewrite lookup_js_set. destruct (String.eqb_spec "graph" k) as [<-|_];
          [discriminate Hxk|exact Hl]. }
      destruct (Hx k jobs Hl' Hxk) as [mj [uj [E1 [E2 _]]]]. eauto.
    + injection H as <- <-. split; reflexivity.
Qed.


(** A report with a top-level graph and a job collection under [job.xml]
    satisfies the hypotheses of [C4_xml_collections_merged]. *)
Lemma C4_xml_collections_merged_witness :
  exists m r',
    analyzeXmlReport (VObj [("graph", select_graph); ("job.xml", xml_jobs)]) =
      Ok (m, r') /\
    exists mr, m = VObj mr /\ map fst mr = ["entire_report"; "job.xml"] /\
      exists mj uj, analyzeJob xml_jobs = Ok (mj, uj) /\
        lookup_v mr "job.xml" = Some mj.
Proof.
  destruct (analyzeXmlReport (VObj [("graph", select_graph); ("job.xml", xml_jobs)]))
    as [[m r']|e] eqn:E; [|vm_compute in E; discriminate E].
  pose proof (C4_xml_collections_merged _ _ _ E
                ltac:(repeat constructor; simpl; intuition discriminate)) as H.
  assert (Eg : truthy (get_opt (VObj [("graph", select_graph); ("job.xml", xml_jobs)])
                         "graph") ||
               truthy (fallback_graph
                         (VObj [("graph", select_graph); ("job.xml", xml_jobs)])) = true)
    by reflexivity.
  rewrite Eg in H. destruct H as [mr [-> [Hk Hx]]].
  exists (VObj mr), r'. split; [reflexivity|]. exists mr. split; [reflexivity|].
  split; [exact Hk|].
  destruct (Hx "job.xml" xml_jobs eq_refl eq_refl) as [mj [uj [E1 E2]]].
  exists mj, uj. auto.
Defined.


End ConvertExtra.
